(** * SensuHandler (diamond/handler/sensu.py): batching, backlog trimming and
      reconnect-on-failure, as a shallow embedding.

    The handler is a Python object whose methods mutate [self] and call the
    socket library and a logger.  Here a method is a function from the
    handler state to an outcome (returned normally, or raised) together with
    the state it leaves behind: a raised exception keeps the mutations made
    before it, which is what [except] and [finally] blocks observe.

    The socket library is not part of the program: every call made on it is
    answered by a [world], an arbitrary function of the calls made so far.
    All calls and log lines are recorded, in order, in the handler's
    [history], so that "no transmission is attempted" or "one reconnect" are
    statements about that list. *)

From Stdlib Require Import ZArith List String Ascii Bool Lia.
From stdpp Require Import base gmap strings.
Import ListNotations.
Local Open Scope string_scope.
Local Open Scope list_scope.
Local Open Scope Z_scope.

(* ===================================================================== *)
(** ** Python values and builtins used by the handler                     *)
(* ===================================================================== *)

Module Py.

(** Exceptions the handler can meet.  All of them derive from [Exception]. *)
Inductive exn : Type :=
| IndexError
| KeyError (key : string)
| ValueError
| AttributeError
| SocketError (errno : Z).

(** Outcome of a call: a value, or a raised exception. *)
Inductive res (A : Type) : Type :=
| Ok (a : A)
| Raise (e : exn).
Arguments Ok {A} a.
Arguments Raise {A} e.

(** Whitespace of a Python 2 byte string: space, \t, \n, \v, \f, \r. *)
Definition isspace (a : ascii) : bool :=
  let n := nat_of_ascii a in
  (Nat.eqb n 32 || (Nat.leb 9 n && Nat.leb n 13))%bool.

Definition is_empty (s : string) : bool :=
  match s with EmptyString => true | String _ _ => false end.

(** [s.split()] with no separator: the maximal runs of non-whitespace. *)
Fixpoint split_from (cur : string) (s : string) : list string :=
  match s with
  | EmptyString => if is_empty cur then [] else [cur]
  | String a rest =>
      if isspace a
      then (if is_empty cur then split_from "" rest
            else cur :: split_from "" rest)
      else split_from (String.append cur (String a "")) rest
  end.

Definition split (s : string) : list string := split_from "" s.

(** [s.lower()] on ASCII letters. *)
Definition lower_ascii (a : ascii) : ascii :=
  let n := nat_of_ascii a in
  if (Nat.leb 65 n && Nat.leb n 90)%bool then ascii_of_nat (n + 32) else a.

Fixpoint lower (s : string) : string :=
  match s with
  | EmptyString => EmptyString
  | String a rest => String (lower_ascii a) (lower rest)
  end.

(** [s.strip()]: whitespace removed at both ends. *)
Fixpoint lstrip (s : string) : string :=
  match s with
  | EmptyString => EmptyString
  | String a rest => if isspace a then lstrip rest else s
  end.

Fixpoint rstrip (s : string) : string :=
  match s with
  | EmptyString => EmptyString
  | String a rest =>
      let r := rstrip rest in
      if (isspace a && is_empty r)%bool then EmptyString else String a r
  end.

Definition strip (s : string) : string := rstrip (lstrip s).

(** [''.join(l)]. *)
Definition join (l : list string) : string :=
  fold_right String.append EmptyString l.

(** [l[i]] for a list: negative indices count from the end, anything out of
    range raises IndexError. *)
Definition index {A} (l : list A) (i : Z) : res A :=
  let n := Z.of_nat (length l) in
  let j := if i <? 0 then i + n else i in
  if (0 <=? j) && (j <? n)
  then match nth_error l (Z.to_nat j) with
       | Some x => Ok x
       | None => Raise IndexError
       end
  else Raise IndexError.

(** [l[i:]]: a negative start counts from the end; the start is clipped to
    the bounds of the list, so the slice never raises. *)
Definition slice_from {A} (l : list A) (i : Z) : list A :=
  let n := Z.of_nat (length l) in
  let start := if i <? 0 then Z.max 0 (i + n) else Z.min i n in
  skipn (Z.to_nat start) l.

(** Values found in the configuration: the defaults are integers and
    strings, values read from a file are strings. *)
Inductive value : Type :=
| VInt (z : Z)
| VStr (s : string).

(** [bool(v)]. *)
Definition truth (v : value) : bool :=
  match v with
  | VInt z => negb (z =? 0)
  | VStr s => negb (is_empty s)
  end.

End Py.
Import Py.

(* ===================================================================== *)
(** ** The socket library, the logger and the recorded history            *)
(* ===================================================================== *)

Inductive sock_type : Type := SOCK_STREAM | SOCK_DGRAM.

(** A socket object, named by a handle. *)
Definition sock : Type := nat.

Inductive level : Type := DEBUG | WARN | ERROR.

Inductive log_arg : Type :=
| AInt (z : Z)
| AVal (v : value)
| AExn (e : exn).

(** One entry per call made on the socket library or on the logger. *)
Inductive event : Type :=
| EvSocket (t : sock_type)
| EvSetsockopt (sk : sock) (lvl opt : string) (v : Z)
| EvSettimeout (sk : sock) (t : Z)
| EvConnect (sk : sock) (host : value) (port : Z)
| EvSendall (sk : sock) (data : string)
| EvClose (sk : sock)
| EvLog (l : level) (msg : string) (args : list log_arg).

(** The network and the operating system: how each socket call answers,
    given everything that was called before.  [socket_socket] may hand out a
    socket, hand out [None] (the case line 161 tests for) or raise. *)
Record world : Type := {
  socket_socket : list event -> sock_type -> res (option sock);
  sock_setsockopt : list event -> sock -> string -> string -> Z -> res unit;
  sock_settimeout : list event -> sock -> Z -> res unit;
  sock_connect : list event -> sock -> value -> Z -> res unit;
  sock_sendall : list event -> sock -> string -> res unit
}.

(* ===================================================================== *)
(** ** The handler object                                                 *)
(* ===================================================================== *)

Record handler : Type := {
  socket : option sock;
  proto : string;
  host : value;
  port : Z;
  timeout : Z;
  keepalive : bool;
  keepaliveinterval : Z;
  batch_size : Z;
  max_backlog_multiplier : Z;
  trim_backlog_multiplier : Z;
  metrics : list string;
  history : list event
}.

Definition set_socket (s : option sock) (h : handler) : handler :=
  {| socket := s; proto := proto h; host := host h; port := port h;
     timeout := timeout h; keepalive := keepalive h;
     keepaliveinterval := keepaliveinterval h; batch_size := batch_size h;
     max_backlog_multiplier := max_backlog_multiplier h;
     trim_backlog_multiplier := trim_backlog_multiplier h;
     metrics := metrics h; history := history h |}.

Definition set_metrics (ms : list string) (h : handler) : handler :=
  {| socket := socket h; proto := proto h; host := host h; port := port h;
     timeout := timeout h; keepalive := keepalive h;
     keepaliveinterval := keepaliveinterval h; batch_size := batch_size h;
     max_backlog_multiplier := max_backlog_multiplier h;
     trim_backlog_multiplier := trim_backlog_multiplier h;
     metrics := ms; history := history h |}.

Definition record (ev : event) (h : handler) : handler :=
  {| socket := socket h; proto := proto h; host := host h; port := port h;
     timeout := timeout h; keepalive := keepalive h;
     keepaliveinterval := keepaliveinterval h; batch_size := batch_size h;
     max_backlog_multiplier := max_backlog_multiplier h;
     trim_backlog_multiplier := trim_backlog_multiplier h;
     metrics := metrics h; history := history h ++ [ev] |}.

(* ===================================================================== *)
(** ** Methods as state transformers that may raise                       *)
(* ===================================================================== *)

Definition M (A : Type) : Type := handler -> res A * handler.

Definition ret {A} (a : A) : M A := fun h => (Ok a, h).

Definition raise {A} (e : exn) : M A := fun h => (Raise e, h).

Definition bind {A B} (m : M A) (k : A -> M B) : M B :=
  fun h =>
    match m h with
    | (Ok a, h1) => k a h1
    | (Raise e, h1) => (Raise e, h1)
    end.

Declare Scope py_scope.
Delimit Scope py_scope with py.
Notation "'do' x <- m ; k" := (bind m (fun x => k))
  (at level 10, x name, m at level 100, k at level 200) : py_scope.
Notation "'run' m ; k" := (bind m (fun _ => k))
  (at level 10, m at level 100, k at level 200) : py_scope.
Local Open Scope py_scope.

(** [try: m  except: handler]. *)
Definition try_except {A} (m : M A) (handler : exn -> M A) : M A :=
  fun h =>
    match m h with
    | (Ok a, h1) => (Ok a, h1)
    | (Raise e, h1) => handler e h1
    end.

(** [try: m  finally: fin]: [fin] runs on the state [m] left, whether [m]
    returned or raised; the outcome of [m] is kept unless [fin] raises. *)
Definition try_finally {A} (m : M A) (fin : M unit) : M A :=
  fun h =>
    let (r, h1) := m h in
    match fin h1 with
    | (Ok _, h2) => (r, h2)
    | (Raise e, h2) => (Raise e, h2)
    end.

Definition get {A} (f : handler -> A) : M A := fun h => (Ok (f h), h).

Definition modify (f : handler -> handler) : M unit := fun h => (Ok tt, f h).

(** A call on the socket library: the world answers from the history before
    the call, and the call is recorded whatever the answer. *)
Definition call {A} (ev : event) (answer : list event -> res A) : M A :=
  fun h => (answer (history h), record ev h).

Definition log (l : level) (msg : string) (args : list log_arg) : M unit :=
  modify (record (EvLog l msg args)).

(** A method called on [self.socket]: on [None] the attribute lookup raises
    before anything reaches the socket library. *)
Definition on_socket {A} (f : sock -> M A) : M A :=
  do s <- get socket;
  match s with
  | Some sk => f sk
  | None => raise AttributeError
  end.

Definition sendall (w : world) (data : string) : M unit :=
  on_socket (fun sk => call (EvSendall sk data)
                            (fun hist => sock_sendall w hist sk data)).

Definition setsockopt (w : world) (lvl opt : string) (v : Z) : M unit :=
  on_socket (fun sk => call (EvSetsockopt sk lvl opt v)
                            (fun hist => sock_setsockopt w hist sk lvl opt v)).

Definition settimeout (w : world) (t : Z) : M unit :=
  on_socket (fun sk => call (EvSettimeout sk t)
                            (fun hist => sock_settimeout w hist sk t)).

Definition connect (w : world) (hst : value) (prt : Z) : M unit :=
  on_socket (fun sk => call (EvConnect sk hst prt)
                            (fun hist => sock_connect w hist sk hst prt)).

(** [_close] (lines 193-199). *)
Definition _close : M unit :=
  do s <- get socket;
  run (match s with
       | Some sk => modify (record (EvClose sk))
       | None => ret tt
       end);
  modify (set_socket None).

(** The body of the keepalive [if] of [_connect] (lines 169-175). *)
Definition set_keepalives (w : world) (kai : Z) : M unit :=
  run log ERROR "SensuHandler: Setting socket keepalives..." [];
  run setsockopt w "SOL_SOCKET" "SO_KEEPALIVE" 1;
  run setsockopt w "IPPROTO_TCP" "TCP_KEEPIDLE" kai;
  run setsockopt w "IPPROTO_TCP" "TCP_KEEPINTVL" kai;
  setsockopt w "IPPROTO_TCP" "TCP_KEEPCNT" 3.

(** Lines 161-191 of [_connect]: what follows the assignment of
    [self.socket].  Keepalive options and the timeout are set outside the
    [try]; only [connect] is inside it. *)
Definition configure_and_connect (w : world) : M unit :=
  do s <- get socket;
  match s with
  | None =>
      run log ERROR "SensuHandler: Unable to create socket." [];
      _close
  | Some _ =>
      do p <- get proto;
      do ka <- get keepalive;
      do kai <- get keepaliveinterval;
      run (if (negb (String.eqb p "udp") && ka)%bool
           then set_keepalives w kai
           else ret tt);
      do t <- get timeout;
      run settimeout w t;
      do hst <- get host;
      do prt <- get port;
      try_except
        (run connect w hst prt;
         log DEBUG "SensuHandler: Established connection to sensu server %s:%d."
             [AVal hst; AInt prt])
        (fun ex =>
           run log ERROR "SensuHandler: Failed to connect to %s:%i. %s."
                   [AVal hst; AInt prt; AExn ex];
           _close)
  end.

(** The socket type [_connect] asks for (lines 154-157). *)
Definition stream_of (h : handler) : sock_type :=
  if String.eqb (proto h) "udp" then SOCK_DGRAM else SOCK_STREAM.

(** [_connect] (lines 150-191).  [socket.socket] is called outside any
    [try]: when it raises, [self.socket] is not assigned and the exception
    leaves [_connect]. *)
Definition _connect (w : world) : M unit :=
  do stream <- get stream_of;
  do s <- call (EvSocket stream) (fun hist => socket_socket w hist stream);
  run modify (set_socket s);
  configure_and_connect w.

(** [_send_data] (lines 106-116). *)
Definition _send_data (w : world) (data : string) : M unit :=
  try_except
    (sendall w data)
    (fun _ =>
       run _close;
       run log ERROR "SensuHandler: Socket error, trying reconnect." [];
       run _connect w;
       sendall w data).

(** The first [if] of [_send] (lines 125-128). *)
Definition reconnect_if_needed (w : world) : M unit :=
  do s <- get socket;
  match s with
  | None =>
      run log DEBUG "SensuHandler: Socket is not connected. Reconnecting." [];
      _connect w
  | Some _ => ret tt
  end.

(** The inner [try] body of [_send] (lines 125-134). *)
Definition send_attempt (w : world) : M unit :=
  run reconnect_if_needed w;
  do s' <- get socket;
  match s' with
  | None => log DEBUG "SensuHandler: Reconnect failed." []
  | Some _ =>
      do ms <- get metrics;
      run _send_data w (join ms);
      modify (set_metrics [])
  end.

(** The [except Exception] handler of [_send] (lines 135-138). *)
Definition send_failed (e : exn) : M unit :=
  run _close;
  run log ERROR "SensuHandler: Error sending metrics." [];
  raise e.

(** The [finally] block of [_send] (lines 139-148). *)
Definition trim_backlog : M unit :=
  do ms <- get metrics;
  do b <- get batch_size;
  do mx <- get max_backlog_multiplier;
  do tr <- get trim_backlog_multiplier;
  if Z.of_nat (length ms) >=? b * mx
  then
    let trim_offset := b * tr * -1 in
    run log WARN
        "SensuHandler: Trimming backlog. Removing oldest %d and keeping newest %d metrics"
        [AInt (Z.of_nat (length ms) - Z.abs trim_offset);
         AInt (Z.abs trim_offset)];
    modify (set_metrics (slice_from ms trim_offset))
  else ret tt.

(** [_send] (lines 118-148). *)
Definition _send (w : world) : M unit :=
  try_finally (try_except (send_attempt w) send_failed) trim_backlog.

(** [flush] (lines 102-104). *)
Definition flush (w : world) : M unit := _send w.

Definition lift {A} (r : res A) : M A := fun h => (r, h).

Section Encoder.

(** [json.dumps] of a dict with string values, given as the items of the
    dict literal in source order.  The JSON text (escaping, key order of a
    Python 2 dict) belongs to the json library, so it is a parameter. *)
Variable json_dumps : list (string * string) -> string.

(** [process] (lines 92-100), on [str(metric)].  The dict literal reads
    [things[1]], then [things[2]], then [things[0]]. *)
Definition process (w : world) (metric_str : string) : M unit :=
  let things := split metric_str in
  do output <- lift (index things 1);
  do issued <- lift (index things 2);
  do name <- lift (index things 0);
  let entry :=
    String.append
      (json_dumps [("output", output); ("issued", issued); ("name", name)])
      (String "010"%char "") in
  run modify (fun h => set_metrics (metrics h ++ [entry]) h);
  do ms <- get metrics;
  do b <- get batch_size;
  if Z.of_nat (length ms) >=? b then _send w else ret tt.

(** A caller feeding metrics one after the other; an exception ends it. *)
Fixpoint process_all (w : world) (ms : list string) : M unit :=
  match ms with
  | [] => ret tt
  | m :: rest => run process w m; process_all w rest
  end.

End Encoder.

Section Construction.

(** [int(s)] on a string: the accepted literals are the builtin's business,
    so the conversion is a parameter; [None] is ValueError. *)
Variable int_of_str : string -> option Z.

(** [int(v)]. *)
Definition int (v : value) : res Z :=
  match v with
  | VInt z => Ok z
  | VStr s =>
      match int_of_str s with
      | Some z => Ok z
      | None => Raise ValueError
      end
  end.

(** [self.config[key]]. *)
Definition config_get (config : gmap string value) (key : string) : res value :=
  match config !! key with
  | Some v => Ok v
  | None => Raise (KeyError key)
  end.

Definition rbind {A B} (r : res A) (k : A -> res B) : res B :=
  match r with
  | Ok a => k a
  | Raise e => Raise e
  end.

(** [v.lower().strip()]: only strings have the method. *)
Definition lower_strip (v : value) : res string :=
  match v with
  | VStr s => Ok (strip (lower s))
  | VInt _ => Raise AttributeError
  end.

(** Lines 26-40 of [__init__]: the options are read and converted in source
    order, before anything touches the socket library.  [config] is
    [self.config] as [Handler.__init__] leaves it. *)
Definition read_options (config : gmap string value) : res handler :=
  rbind (rbind (config_get config "proto") lower_strip) (fun proto_ =>
  rbind (config_get config "host") (fun host_ =>
  rbind (rbind (config_get config "port") int) (fun port_ =>
  rbind (rbind (config_get config "timeout") int) (fun timeout_ =>
  rbind (config_get config "keepalive") (fun keepalive_ =>
  rbind (rbind (config_get config "keepaliveinterval") int) (fun kai_ =>
  rbind (rbind (config_get config "batch") int) (fun batch_ =>
  rbind (rbind (config_get config "max_backlog_multiplier") int) (fun max_ =>
  rbind (rbind (config_get config "trim_backlog_multiplier") int) (fun trim_ =>
  Ok {| socket := None; proto := proto_; host := host_; port := port_;
        timeout := timeout_; keepalive := truth keepalive_;
        keepaliveinterval := kai_; batch_size := batch_;
        max_backlog_multiplier := max_; trim_backlog_multiplier := trim_;
        metrics := []; history := [] |}))))))))).

(** [__init__] (lines 18-43): the handler built, or the exception raised,
    with the calls made on the socket library and the logger meanwhile. *)
Definition __init__ (w : world) (config : gmap string value)
  : res handler * list event :=
  match read_options config with
  | Raise e => (Raise e, [])
  | Ok h0 =>
      match _connect w h0 with
      | (Ok _, h) => (Ok h, history h)
      | (Raise e, h) => (Raise e, history h)
      end
  end.

End Construction.

(* ===================================================================== *)
(** ** Notions used in the statements                                     *)
(* ===================================================================== *)

(** The configuration invariant of the data model. *)
Definition config_ok (h : handler) : Prop :=
  1 <= batch_size h /\
  1 <= trim_backlog_multiplier h /\
  trim_backlog_multiplier h < max_backlog_multiplier h.

(** The ceiling and the trim target, as the [finally] block computes them. *)
Definition ceiling (h : handler) : Z := batch_size h * max_backlog_multiplier h.
Definition target (h : handler) : Z := batch_size h * trim_backlog_multiplier h.

(** What the [finally] block makes of a backlog [ms] under the options of
    [h]. *)
Definition trimmed (h : handler) (ms : list string) : list string :=
  if Z.of_nat (length ms) >=? ceiling h
  then slice_from ms (target h * -1)
  else ms.

(** The calls and log lines made between state [h] and a later state [h']. *)
Definition since (h h' : handler) : list event :=
  skipn (length (history h)) (history h').

(** Payloads handed to [sendall], in order. *)
Fixpoint sendalls (evs : list event) : list string :=
  match evs with
  | [] => []
  | EvSendall _ data :: rest => data :: sendalls rest
  | _ :: rest => sendalls rest
  end.

(** Sockets asked for, in order. *)
Fixpoint socket_calls (evs : list event) : list sock_type :=
  match evs with
  | [] => []
  | EvSocket t :: rest => t :: socket_calls rest
  | _ :: rest => socket_calls rest
  end.

(** Sockets closed, in order. *)
Fixpoint closes (evs : list event) : list sock :=
  match evs with
  | [] => []
  | EvClose sk :: rest => sk :: closes rest
  | _ :: rest => closes rest
  end.

(** Neither a request for a socket nor a send: options, timeout, connect,
    close and log lines. *)
Definition plain (ev : event) : bool :=
  match ev with
  | EvSocket _ | EvSendall _ _ => false
  | _ => true
  end.

(** The options, which no method assigns after construction. *)
Definition same_options (h h' : handler) : Prop :=
  proto h' = proto h /\ host h' = host h /\ port h' = port h /\
  timeout h' = timeout h /\ keepalive h' = keepalive h /\
  keepaliveinterval h' = keepaliveinterval h /\
  batch_size h' = batch_size h /\
  max_backlog_multiplier h' = max_backlog_multiplier h /\
  trim_backlog_multiplier h' = trim_backlog_multiplier h.

Definition same_backlog (h h' : handler) : Prop := metrics h' = metrics h.

Definition extends (h h' : handler) : Prop :=
  exists evs, history h' = history h ++ evs.

(** The state in which [_send_data] reconnects after a [sendall] that failed
    on socket [sk] (lines 112-114): the send is on record, the socket is
    closed and forgotten, the error is logged. *)
Definition after_failed_send (sk : sock) (data : string) (h : handler)
  : handler :=
  record (EvLog ERROR "SensuHandler: Socket error, trying reconnect." [])
    (set_socket None (record (EvClose sk) (record (EvSendall sk data) h))).

(** From [h] to [h'] nothing was sent. *)
Definition no_send (h h' : handler) : Prop :=
  exists evs, history h' = history h ++ evs /\ sendalls evs = [].

(** From [h] to [h'] nothing was sent and no socket was asked for. *)
Definition quiet (h h' : handler) : Prop :=
  exists evs,
    history h' = history h ++ evs /\ sendalls evs = [] /\ socket_calls evs = [].

(** A method leaves every state related by [R] to the state it started in,
    whether it returns or raises. *)
Definition stable (R : handler -> handler -> Prop) {A} (m : M A) : Prop :=
  forall h, R h (snd (m h)).

(** The entry [process] appends for a metric of at least three tokens. *)
Definition entry_of (json_dumps : list (string * string) -> string)
    (metric_str : string) : string :=
  match split metric_str with
  | name :: output :: issued :: _ =>
      String.append
        (json_dumps [("output", output); ("issued", issued); ("name", name)])
        (String "010"%char "")
  | _ => ""
  end.

(** The options [__init__] converts with [int]. *)
Definition int_options : list string :=
  ["port"; "timeout"; "keepaliveinterval"; "batch";
   "max_backlog_multiplier"; "trim_backlog_multiplier"].

(* ===================================================================== *)
(** ** Sample worlds and handlers                                         *)
(* ===================================================================== *)

(** A reachable server: every call succeeds; sockets are numbered by the
    length of the history at their creation. *)
Definition up : world :=
  {| socket_socket := fun hist _ => Ok (Some (length hist));
     sock_setsockopt := fun _ _ _ _ _ => Ok tt;
     sock_settimeout := fun _ _ _ => Ok tt;
     sock_connect := fun _ _ _ _ => Ok tt;
     sock_sendall := fun _ _ _ => Ok tt |}.

(** Connection refused (errno 111) at every [connect]. *)
Definition unreachable : world :=
  {| socket_socket := socket_socket up;
     sock_setsockopt := sock_setsockopt up;
     sock_settimeout := sock_settimeout up;
     sock_connect := fun _ _ _ _ => Raise (SocketError 111);
     sock_sendall := sock_sendall up |}.

(** The peer accepts connections but every [sendall] fails (errno 32). *)
Definition broken_pipe : world :=
  {| socket_socket := socket_socket up;
     sock_setsockopt := sock_setsockopt up;
     sock_settimeout := sock_settimeout up;
     sock_connect := sock_connect up;
     sock_sendall := fun _ _ _ => Raise (SocketError 32) |}.

(** Only the first [sendall] fails. *)
Definition flaky : world :=
  {| socket_socket := socket_socket up;
     sock_setsockopt := sock_setsockopt up;
     sock_settimeout := sock_settimeout up;
     sock_connect := sock_connect up;
     sock_sendall := fun hist _ _ =>
       match sendalls hist with
       | [] => Raise (SocketError 32)
       | _ => Ok tt
       end |}.

(** The process has no file descriptor left: [socket.socket] raises
    socket.error with errno 24. *)
Definition out_of_descriptors : world :=
  {| socket_socket := fun _ _ => Raise (SocketError 24);
     sock_setsockopt := sock_setsockopt up;
     sock_settimeout := sock_settimeout up;
     sock_connect := sock_connect up;
     sock_sendall := sock_sendall up |}.

(** A handler with the default options of [get_default_config], not yet
    connected, holding the backlog [ms]. *)
Definition default_handler (ms : list string) : handler :=
  {| socket := None; proto := "tcp"; host := VStr "localhost"; port := 2003;
     timeout := 15; keepalive := false; keepaliveinterval := 10;
     batch_size := 1; max_backlog_multiplier := 5;
     trim_backlog_multiplier := 4; metrics := ms; history := [] |}.

(** The same, connected on socket [sk]. *)
Definition connected_handler (sk : sock) (ms : list string) : handler :=
  set_socket (Some sk) (default_handler ms).

(** A connected handler that sends batches of three. *)
Definition batching_handler : handler :=
  {| socket := Some 0%nat; proto := "tcp"; host := VStr "localhost";
     port := 2003; timeout := 15; keepalive := false; keepaliveinterval := 10;
     batch_size := 3; max_backlog_multiplier := 5;
     trim_backlog_multiplier := 4; metrics := []; history := [] |}.

(** An unconnected handler with batch 2, ceiling 2 * 5 and trim target
    2 * 4. *)
Definition pairs_handler : handler :=
  {| socket := None; proto := "tcp"; host := VStr "localhost";
     port := 2003; timeout := 15; keepalive := false; keepaliveinterval := 10;
     batch_size := 2; max_backlog_multiplier := 5;
     trim_backlog_multiplier := 4; metrics := []; history := [] |}.

(** Ten metrics, oldest first. *)
Definition ten_metrics : list string :=
  ["m1 1 10"; "m2 1 10"; "m3 1 10"; "m4 1 10"; "m5 1 10";
   "m6 1 10"; "m7 1 10"; "m8 1 10"; "m9 1 10"; "m10 1 10"].

(** A stand-in for [json.dumps] in the examples: the values, in the order
    of the dict literal, between braces. *)
Definition sample_dumps (items : list (string * string)) : string :=
  String.append "{" (String.append (join (map (fun kv => String.append (snd kv) ";") items)) "}").

(** A stand-in for [int] on strings in the examples: nothing converts. *)
Definition no_literal (s : string) : option Z := None.

(** The default configuration of [get_default_config]. *)
Definition default_config : gmap string value :=
  list_to_map
    [("host", VStr "localhost"); ("port", VInt 2003); ("proto", VStr "tcp");
     ("timeout", VInt 15); ("batch", VInt 1);
     ("max_backlog_multiplier", VInt 5); ("trim_backlog_multiplier", VInt 4);
     ("keepalive", VInt 0); ("keepaliveinterval", VInt 10)].

(** The defaults with a port read from a file as the text "graphite". *)
Definition named_port_config : gmap string value :=
  <["port" := VStr "graphite"]> default_config.

(** The defaults with no batching at all and a trim target above the
    ceiling: every part of the configuration invariant is violated. *)
Definition unchecked_config : gmap string value :=
  <["batch" := VInt 0]>
    (<["max_backlog_multiplier" := VInt 1]>
       (<["trim_backlog_multiplier" := VInt 3]> default_config)).

(** An unconnected handler holding [ms] with the given batch size and
    multipliers, which nothing checks, and the other options at their
    defaults. *)
Definition tuned_handler (b mx tr : Z) (ms : list string) : handler :=
  {| socket := None; proto := "tcp"; host := VStr "localhost"; port := 2003;
     timeout := 15; keepalive := false; keepaliveinterval := 10;
     batch_size := b; max_backlog_multiplier := mx;
     trim_backlog_multiplier := tr; metrics := ms; history := [] |}.


(* ===================================================================== *)
(** ** Teardown, defaults and further notions                             *)
(* ===================================================================== *)

(** [__del__] (lines 86-90). *)
Definition __del__ : M unit := _close.

(** [d.update(new)]: the items of [new] replace those of [d]. *)
Definition update {V} (d new : gmap string V) : gmap string V := new ∪ d.

(** [get_default_config] (lines 66-84); [base] is what the method of the
    base class returns. *)
Definition get_default_config (base : gmap string value) : gmap string value :=
  update base
    (list_to_map
       [("host", VStr "localhost"); ("port", VInt 2003); ("proto", VStr "tcp");
        ("timeout", VInt 15); ("batch", VInt 1);
        ("max_backlog_multiplier", VInt 5); ("trim_backlog_multiplier", VInt 4);
        ("keepalive", VInt 0); ("keepaliveinterval", VInt 10)]).

(** [get_default_config_help] (lines 45-64); [base] is what the method of
    the base class returns. *)
Definition get_default_config_help (base : gmap string string)
  : gmap string string :=
  update base
    (list_to_map
       [("host", "Hostname"); ("port", "Port"); ("proto", "udp or tcp");
        ("timeout", "");
        ("batch", "How many to store before sending to the sensu server");
        ("max_backlog_multiplier", "how many batches to store before trimming");
        ("trim_backlog_multiplier", "Trim down how many batches");
        ("keepalive", "Enable keepalives for tcp streams");
        ("keepaliveinterval", "How frequently to send keepalives")]).

(** The options [__init__] reads, in the order it reads them. *)
Definition read_keys : list string :=
  ["proto"; "host"; "port"; "timeout"; "keepalive"; "keepaliveinterval";
   "batch"; "max_backlog_multiplier"; "trim_backlog_multiplier"].

(** Socket options set, in order. *)
Fixpoint setsockopts (evs : list event) : list (sock * string * string * Z) :=
  match evs with
  | [] => []
  | EvSetsockopt sk lvl opt v :: rest => (sk, lvl, opt, v) :: setsockopts rest
  | _ :: rest => setsockopts rest
  end.

(** From [h] to [h'] exactly the payloads [l] were handed to [sendall]. *)
Definition sent (l : list string) (h h' : handler) : Prop :=
  exists evs, history h' = history h ++ evs /\ sendalls evs = l.

(** Setting options and the timeout always returns. *)
Definition tunable (w : world) : Prop :=
  (forall hist sk l o v, sock_setsockopt w hist sk l o v = Ok tt) /\
  (forall hist sk t, sock_settimeout w hist sk t = Ok tt).

(** An outage: sockets can be created and tuned, every [connect] raises. *)
Definition down (w : world) : Prop :=
  (forall hist t, exists s, socket_socket w hist t = Ok s) /\
  tunable w /\
  (forall hist sk hst prt, exists e, sock_connect w hist sk hst prt = Raise e).

(** A healthy link: every [sendall] returns. *)
Definition accepts (w : world) : Prop :=
  forall hist sk data, sock_sendall w hist sk data = Ok tt.

(** Every metric of the list has the three tokens [process] reads. *)
Definition well_formed (ms : list string) : Prop :=
  Forall (fun m => (3 <= length (split m))%nat) ms.

(** The backlog is below the ceiling and the options respect the
    configuration invariant. *)
Definition bounded (h : handler) : Prop :=
  config_ok h /\ Z.of_nat (length (metrics h)) < ceiling h.

(* ===================================================================== *)
(** ** What the methods leave untouched                                   *)
(* ===================================================================== *)

Section Stable.

Variable R : handler -> handler -> Prop.
Hypothesis R_refl : forall h, R h h.
Hypothesis R_trans : forall h1 h2 h3, R h1 h2 -> R h2 h3 -> R h1 h3.

Lemma stable_ret {A} (a : A) : stable R (ret a).
Proof. intros h. apply R_refl. Qed.

Lemma stable_raise {A} (e : exn) : stable R (@raise A e).
Proof. intros h. apply R_refl. Qed.

Lemma stable_get {A} (f : handler -> A) : stable R (get f).
Proof. intros h. apply R_refl. Qed.

Lemma stable_lift {A} (r : res A) : stable R (lift r).
Proof. intros h. apply R_refl. Qed.

Lemma stable_bind {A B} (m : M A) (k : A -> M B) :
  stable R m -> (forall a, stable R (k a)) -> stable R (bind m k).
Proof.
  intros Hm Hk h. unfold bind. specialize (Hm h).
  destruct (m h) as [[a|e] h1]; simpl in *; auto.
  eapply R_trans; [exact Hm | apply Hk].
Qed.

Lemma stable_try_except {A} (m : M A) (hd : exn -> M A) :
  stable R m -> (forall e, stable R (hd e)) -> stable R (try_except m hd).
Proof.
  intros Hm Hh h. unfold try_except. specialize (Hm h).
  destruct (m h) as [[a|e] h1]; simpl in *; auto.
  eapply R_trans; [exact Hm | apply Hh].
Qed.

Lemma stable_try_finally {A} (m : M A) (fin : M unit) :
  stable R m -> stable R fin -> stable R (try_finally m fin).
Proof.
  intros Hm Hf h. unfold try_finally. specialize (Hm h).
  destruct (m h) as [r h1]; simpl in *. specialize (Hf h1).
  destruct (fin h1) as [[u|e] h2]; simpl in *; eapply R_trans; eauto.
Qed.

(** Events are split in three: asking for a socket, sending, and the rest
    (options, timeout, connect, close, log lines). *)
Hypothesis R_record : forall ev h, plain ev = true -> R h (record ev h).
Hypothesis R_socket : forall s h, R h (set_socket s h).

Lemma stable_call {A} (ev : event) (answer : list event -> res A) :
  plain ev = true -> stable R (call ev answer).
Proof. intros Hev h. now apply R_record. Qed.

Lemma stable_log l msg args : stable R (log l msg args).
Proof. intros h. now apply R_record. Qed.

Lemma stable_on_socket {A} (f : sock -> M A) :
  (forall sk, stable R (f sk)) -> stable R (on_socket f).
Proof.
  intros Hf. unfold on_socket. apply stable_bind; [apply stable_get|].
  intros [sk|]; [apply Hf | apply stable_raise].
Qed.

Lemma stable_setsockopt w lvl opt v : stable R (setsockopt w lvl opt v).
Proof. apply stable_on_socket. intros sk. now apply stable_call. Qed.

Lemma stable_settimeout w t : stable R (settimeout w t).
Proof. apply stable_on_socket. intros sk. now apply stable_call. Qed.

Lemma stable_connect w hst prt : stable R (connect w hst prt).
Proof. apply stable_on_socket. intros sk. now apply stable_call. Qed.

Lemma stable_set_socket s : stable R (modify (set_socket s)).
Proof. intros h. apply R_socket. Qed.

Lemma stable__close : stable R _close.
Proof.
  unfold _close. apply stable_bind; [apply stable_get|]. intros s.
  apply stable_bind; [|intros _; apply stable_set_socket].
  destruct s; [intros h; now apply R_record | apply stable_ret].
Qed.

Lemma stable_send_failed e : stable R (send_failed e).
Proof.
  unfold send_failed.
  apply stable_bind; [apply stable__close | intros _].
  apply stable_bind; [apply stable_log | intros _; apply stable_raise].
Qed.

Lemma stable_configure_and_connect w : stable R (configure_and_connect w).
Proof.
  unfold configure_and_connect, set_keepalives.
  repeat first
    [ apply stable_get | apply stable_log
    | apply stable__close | apply stable_ret
    | apply stable_setsockopt | apply stable_settimeout
    | apply stable_connect
    | apply stable_bind; [|intros ?]
    | apply stable_try_except; [|intros ?]
    | match goal with |- stable _ (match ?x with _ => _ end) => destruct x end ].
Qed.

Hypothesis R_new_socket : forall t h, R h (record (EvSocket t) h).

Lemma stable__connect w : stable R (_connect w).
Proof.
  unfold _connect.
  apply stable_bind; [apply stable_get | intros stream].
  apply stable_bind; [intros h; apply R_new_socket | intros s].
  apply stable_bind; [apply stable_set_socket | intros _].
  apply stable_configure_and_connect.
Qed.

Lemma stable_reconnect_if_needed w : stable R (reconnect_if_needed w).
Proof.
  unfold reconnect_if_needed. apply stable_bind; [apply stable_get|].
  intros [sk|]; [apply stable_ret|].
  apply stable_bind; [apply stable_log | intros _; apply stable__connect].
Qed.

Hypothesis R_sendall : forall sk data h, R h (record (EvSendall sk data) h).

Lemma stable_sendall w data : stable R (sendall w data).
Proof. apply stable_on_socket. intros sk h. apply R_sendall. Qed.

Lemma stable__send_data w data : stable R (_send_data w data).
Proof.
  unfold _send_data.
  repeat first
    [ apply stable_sendall | apply stable_log
    | apply stable__close | apply stable__connect
    | apply stable_bind; [|intros ?]
    | apply stable_try_except; [|intros ?] ].
Qed.

Hypothesis R_metrics : forall ms h, R h (set_metrics ms h).

Lemma stable_set_metrics ms : stable R (modify (set_metrics ms)).
Proof. intros h. apply R_metrics. Qed.

Lemma stable_send_attempt w : stable R (send_attempt w).
Proof.
  unfold send_attempt.
  apply stable_bind; [apply stable_reconnect_if_needed | intros _].
  apply stable_bind; [apply stable_get | intros [sk|]]; [|apply stable_log].
  apply stable_bind; [apply stable_get | intros ms].
  apply stable_bind; [apply stable__send_data | intros _].
  apply stable_set_metrics.
Qed.

Lemma stable_trim_backlog : stable R trim_backlog.
Proof.
  unfold trim_backlog.
  repeat (apply stable_bind; [apply stable_get | intros ?]).
  match goal with |- stable _ (if ?c then _ else _) => destruct c end;
    [|apply stable_ret].
  apply stable_bind; [apply stable_log | intros _; apply stable_set_metrics].
Qed.

Lemma stable__send w : stable R (_send w).
Proof.
  unfold _send. apply stable_try_finally; [|apply stable_trim_backlog].
  apply stable_try_except; [apply stable_send_attempt|].
  intros e. apply stable_send_failed.
Qed.

End Stable.

(** *** The three relations the frame lemmas are used at *)

Lemma same_options_refl h : same_options h h.
Proof. unfold same_options. tauto. Qed.

Lemma same_options_trans h1 h2 h3 :
  same_options h1 h2 -> same_options h2 h3 -> same_options h1 h3.
Proof. unfold same_options. intuition congruence. Qed.

Lemma same_backlog_trans h1 h2 h3 :
  same_backlog h1 h2 -> same_backlog h2 h3 -> same_backlog h1 h3.
Proof. unfold same_backlog. congruence. Qed.

Lemma extends_same_history h h' : history h' = history h -> extends h h'.
Proof. intros E. exists []. now rewrite app_nil_r. Qed.

Lemma extends_refl h : extends h h.
Proof. now apply extends_same_history. Qed.

Lemma extends_trans h1 h2 h3 : extends h1 h2 -> extends h2 h3 -> extends h1 h3.
Proof.
  intros [e1 H1] [e2 H2]. exists (e1 ++ e2). now rewrite H2, H1, app_assoc.
Qed.

Lemma extends_record ev h : extends h (record ev h).
Proof. now exists [ev]. Qed.

Lemma _send_same_options w h : same_options h (snd (_send w h)).
Proof.
  apply (stable__send same_options same_options_refl same_options_trans);
    intros; unfold same_options; simpl; tauto.
Qed.

(** The history only grows: [since] loses nothing. *)
Lemma _send_extends w h : extends h (snd (_send w h)).
Proof.
  apply (stable__send extends extends_refl extends_trans);
    intros; first [apply extends_record | now apply extends_same_history].
Qed.

Lemma _connect_same_backlog w h : metrics (snd (_connect w h)) = metrics h.
Proof.
  apply (stable__connect same_backlog (fun _ => eq_refl) same_backlog_trans);
    intros; reflexivity.
Qed.

Lemma reconnect_same_backlog w h :
  metrics (snd (reconnect_if_needed w h)) = metrics h.
Proof.
  apply (stable_reconnect_if_needed same_backlog (fun _ => eq_refl)
           same_backlog_trans); intros; reflexivity.
Qed.

Lemma _send_data_same_backlog w data h :
  metrics (snd (_send_data w data h)) = metrics h.
Proof.
  apply (stable__send_data same_backlog (fun _ => eq_refl) same_backlog_trans);
    intros; reflexivity.
Qed.

Lemma since_app h h' evs : history h' = history h ++ evs -> since h h' = evs.
Proof.
  intros E. unfold since. rewrite E.
  rewrite skipn_app, skipn_all, Nat.sub_diag. reflexivity.
Qed.

Lemma since_self h : since h h = [].
Proof. apply since_app. now rewrite app_nil_r. Qed.

(* ===================================================================== *)
(** ** Equations of the methods                                           *)
(* ===================================================================== *)

Lemma _close_eq h :
  _close h =
  (Ok tt, set_socket None
            match socket h with
            | Some sk => record (EvClose sk) h
            | None => h
            end).
Proof. unfold _close, bind, get, modify, ret. now destruct (socket h). Qed.

Lemma send_failed_eq e h :
  send_failed e h =
  (Raise e,
   record (EvLog ERROR "SensuHandler: Error sending metrics." [])
          (snd (_close h))).
Proof. unfold send_failed, bind. rewrite _close_eq. reflexivity. Qed.

Lemma trim_backlog_eq h :
  trim_backlog h =
  (Ok tt,
   if Z.of_nat (length (metrics h)) >=? ceiling h
   then set_metrics (slice_from (metrics h) (target h * -1))
          (record
             (EvLog WARN
                "SensuHandler: Trimming backlog. Removing oldest %d and keeping newest %d metrics"
                [AInt (Z.of_nat (length (metrics h)) - Z.abs (target h * -1));
                 AInt (Z.abs (target h * -1))]) h)
   else h).
Proof.
  unfold trim_backlog, bind, get, ceiling, target. simpl.
  now destruct (Z.of_nat (length (metrics h)) >=?
                batch_size h * max_backlog_multiplier h).
Qed.

Lemma trim_backlog_metrics h :
  metrics (snd (trim_backlog h)) = trimmed h (metrics h).
Proof.
  rewrite trim_backlog_eq. unfold trimmed. simpl.
  now destruct (Z.of_nat (length (metrics h)) >=? ceiling h).
Qed.

Lemma trim_backlog_socket h : socket (snd (trim_backlog h)) = socket h.
Proof.
  rewrite trim_backlog_eq. simpl.
  now destruct (Z.of_nat (length (metrics h)) >=? ceiling h).
Qed.

Lemma trim_backlog_since h :
  closes (since h (snd (trim_backlog h))) = [] /\
  sendalls (since h (snd (trim_backlog h))) = [] /\
  socket_calls (since h (snd (trim_backlog h))) = [].
Proof.
  rewrite trim_backlog_eq. simpl.
  destruct (Z.of_nat (length (metrics h)) >=? ceiling h).
  - erewrite since_app by reflexivity. auto.
  - rewrite since_self. auto.
Qed.

(** [_send] is its inner [try/except] followed by the [finally] block, which
    never raises: the outcome is the inner one. *)
Lemma _send_eq w h :
  _send w h =
  (fst (try_except (send_attempt w) send_failed h),
   snd (trim_backlog (snd (try_except (send_attempt w) send_failed h)))).
Proof.
  unfold _send, try_finally.
  destruct (try_except (send_attempt w) send_failed h) as [r h1]. simpl.
  rewrite trim_backlog_eq. reflexivity.
Qed.

(** The four ways through the inner [try/except] of [_send]. *)
Lemma inner_cases w h :
  let inner := try_except (send_attempt w) send_failed h in
  match reconnect_if_needed w h with
  | (Raise e, h1) => inner = send_failed e h1
  | (Ok _, h1) =>
      match socket h1 with
      | None =>
          inner =
          (Ok tt, record (EvLog DEBUG "SensuHandler: Reconnect failed." []) h1)
      | Some _ =>
          match _send_data w (join (metrics h1)) h1 with
          | (Ok _, h2) => inner = (Ok tt, set_metrics [] h2)
          | (Raise e, h2) => inner = send_failed e h2
          end
      end
  end.
Proof.
  unfold try_except, send_attempt, bind, get. simpl.
  destruct (reconnect_if_needed w h) as [[[]|e] h1]; [|reflexivity].
  destruct (socket h1) as [sk|]; [|reflexivity].
  destruct (_send_data w (join (metrics h1)) h1) as [[[]|e] h2]; reflexivity.
Qed.

(* ===================================================================== *)
(** ** Trimming                                                           *)
(* ===================================================================== *)

Lemma trimmed_same_options h h' ms :
  same_options h h' -> trimmed h' ms = trimmed h ms.
Proof.
  unfold same_options, trimmed, ceiling, target.
  intros (_ & _ & _ & _ & _ & _ & -> & -> & ->). reflexivity.
Qed.

Lemma trimmed_below h ms :
  Z.of_nat (length ms) < ceiling h -> trimmed h ms = ms.
Proof.
  intros H. unfold trimmed.
  destruct (Z.geb_spec (Z.of_nat (length ms)) (ceiling h)); [lia | reflexivity].
Qed.

(** With a positive target no larger than the backlog, the slice
    [ms[-target:]] skips all but the last [target] entries. *)
Lemma trimmed_at_ceiling h ms :
  0 < target h -> target h <= Z.of_nat (length ms) ->
  ceiling h <= Z.of_nat (length ms) ->
  trimmed h ms = skipn (length ms - Z.to_nat (target h)) ms.
Proof.
  intros Hpos Hle Hc. unfold trimmed.
  destruct (Z.geb_spec (Z.of_nat (length ms)) (ceiling h)); [|lia].
  unfold slice_from.
  destruct (Z.ltb_spec (target h * -1) 0); [|lia].
  f_equal. lia.
Qed.

Lemma config_ok_target h : config_ok h -> 0 < target h /\ target h < ceiling h.
Proof. unfold config_ok, target, ceiling. intros (Hb & Ht & Hm). nia. Qed.

Lemma inner_same_options w h :
  same_options h (snd (try_except (send_attempt w) send_failed h)).
Proof.
  apply stable_try_except;
    [ exact same_options_trans
    | apply stable_send_attempt | intros e; apply stable_send_failed ];
    first [ exact same_options_refl | exact same_options_trans
          | intros; unfold same_options; simpl; tauto ].
Qed.

(** C1 (as the code has it).  Whatever the world does, a flush is its
    inner try/except (which sends, finds no connection, or raises) followed
    by the backlog check: the outcome is the inner one and the backlog left
    is the inner backlog, sliced to its last
    batch_size * trim_backlog_multiplier entries when its length is at
    least batch_size * max_backlog_multiplier.  Provided that trim target is
    at least 1 and at most the ceiling -- which the configuration invariant
    implies and the code does not check -- the backlog a flush leaves,
    returning or raising, is never longer than the ceiling, and whenever
    the trimming fires it has exactly batch_size * trim_backlog_multiplier
    entries. *)
Theorem flush_bounds_backlog (w : world) (h : handler) :
  let inner := try_except (send_attempt w) send_failed h in
  let out := _send w h in
  fst out = fst inner /\
  snd out = snd (trim_backlog (snd inner)) /\
  metrics (snd out) =
    (if Z.of_nat (length (metrics (snd inner))) >=? ceiling h
     then slice_from (metrics (snd inner)) (target h * -1)
     else metrics (snd inner)) /\
  (config_ok h -> 0 < target h <= ceiling h) /\
  (0 < target h <= ceiling h ->
   Z.of_nat (length (metrics (snd out))) <= ceiling h /\
   (ceiling h <= Z.of_nat (length (metrics (snd inner))) ->
    Z.of_nat (length (metrics (snd out))) = target h)).
Proof.
  intros inner out.
  assert (Eout : out = (fst inner, snd (trim_backlog (snd inner))))
    by apply _send_eq.
  assert (Hm : metrics (snd out) = trimmed h (metrics (snd inner))).
  { rewrite Eout. simpl. rewrite trim_backlog_metrics.
    apply trimmed_same_options, inner_same_options. }
  split; [now rewrite Eout|]. split; [now rewrite Eout|].
  split; [exact Hm|].
  split; [intros Hok; destruct (config_ok_target h Hok); lia|].
  intros [Hpos Hle]. split.
  - rewrite Hm.
    destruct (Z.lt_ge_cases (Z.of_nat (length (metrics (snd inner)))) (ceiling h))
      as [Hb | Hb].
    + rewrite trimmed_below by exact Hb. lia.
    + rewrite trimmed_at_ceiling by lia. rewrite length_skipn. lia.
  - intros Hb. rewrite Hm, trimmed_at_ceiling by lia.
    rewrite length_skipn. lia.
Qed.

(** C1 at a handler with the default options whose five queued entries meet
    the ceiling of 1 * 5 while the server refuses connections: four are
    left. *)
Lemma flush_bounds_backlog_witness :
  0 < target (default_handler ["a"; "b"; "c"; "d"; "e"])
    <= ceiling (default_handler ["a"; "b"; "c"; "d"; "e"]) /\
  Z.of_nat (length (metrics (snd (_send unreachable
     (default_handler ["a"; "b"; "c"; "d"; "e"]))))) = 4.
Proof.
  assert (Hok : 0 < target (default_handler ["a"; "b"; "c"; "d"; "e"])
                  <= ceiling (default_handler ["a"; "b"; "c"; "d"; "e"])).
  { unfold target, ceiling. simpl. lia. }
  split; [exact Hok|].
  pose proof (flush_bounds_backlog unreachable
                (default_handler ["a"; "b"; "c"; "d"; "e"])) as H.
  destruct H as (_ & _ & _ & _ & H). destruct (H Hok) as [_ Hfire].
  apply Hfire. vm_compute. intros D. discriminate D.
Defined.

(** C1 as stated fails on options the code accepts.  With batch 1, max 2
    and trim 3 a flush that cannot connect finds four entries, trims, and
    leaves three, above the ceiling of two.  With batch 1, max 5 and trim 0
    the check fires on seven entries and leaves all seven, neither at most
    the ceiling of five nor the trim target of zero. *)
Lemma flush_exceeds_unchecked_ceiling :
  (ceiling (tuned_handler 1 2 3 ["a"; "b"; "c"; "d"]) = 2 /\
   fst (_send unreachable (tuned_handler 1 2 3 ["a"; "b"; "c"; "d"])) = Ok tt /\
   metrics (snd (_send unreachable (tuned_handler 1 2 3 ["a"; "b"; "c"; "d"])))
     = ["b"; "c"; "d"]) /\
  (ceiling (tuned_handler 1 5 0 ["a"; "b"; "c"; "d"; "e"; "f"; "g"]) = 5 /\
   target (tuned_handler 1 5 0 ["a"; "b"; "c"; "d"; "e"; "f"; "g"]) = 0 /\
   metrics (snd (_send unreachable
                   (tuned_handler 1 5 0 ["a"; "b"; "c"; "d"; "e"; "f"; "g"])))
     = ["a"; "b"; "c"; "d"; "e"; "f"; "g"]).
Proof. vm_compute. repeat split. Qed.

(** C4 (as the code has it).  When the backlog e1..eN has reached the
    ceiling batch_size * max_backlog_multiplier and the trim target
    k = batch_size * trim_backlog_multiplier is at least 1 and at most N --
    as it is under the configuration invariant, which the code does not
    check -- the backlog check keeps exactly the last k entries, in their
    order: the entries dropped are the N - k oldest and the i-th survivor is
    entry N - k + i of the original. *)
Theorem trim_keeps_newest (h : handler) :
  ceiling h <= Z.of_nat (length (metrics h)) ->
  0 < target h <= Z.of_nat (length (metrics h)) ->
  let ms := metrics h in
  let k := Z.to_nat (target h) in
  let kept := metrics (snd (trim_backlog h)) in
  kept = skipn (length ms - k) ms /\
  length kept = k /\
  ms = firstn (length ms - k) ms ++ kept /\
  (forall i, (i < k)%nat ->
     nth_error kept i = nth_error ms (length ms - k + i)).
Proof.
  intros Hc [Hpos Hle] ms k kept.
  assert (E : kept = skipn (length ms - k) ms).
  { unfold kept, ms, k. rewrite trim_backlog_metrics.
    apply trimmed_at_ceiling; lia. }
  repeat split.
  - exact E.
  - rewrite E, length_skipn. unfold k, ms. lia.
  - rewrite E. symmetry. apply firstn_skipn.
  - intros i _. rewrite E. apply nth_error_skipn.
Qed.

(** C4 on five entries with the default options: the four newest stay. *)
Lemma trim_keeps_newest_witness :
  metrics (snd (trim_backlog (default_handler ["e1"; "e2"; "e3"; "e4"; "e5"])))
  = skipn 1 ["e1"; "e2"; "e3"; "e4"; "e5"].
Proof.
  refine (proj1 (trim_keeps_newest
            (default_handler ["e1"; "e2"; "e3"; "e4"; "e5"])
            ltac:(vm_compute; intros D; discriminate D)
            ltac:(split; [reflexivity | vm_compute; intros D; discriminate D]))).
Defined.

(** C4 as stated fails on options the code accepts.  With batch 1, max 5
    and trim 0 the ceiling of five is reached by seven entries and the trim
    target is k = 0; the check fires, yet the slice [metrics[-0:]] is the
    whole list: all seven entries survive, not the empty suffix
    e(N-k+1)..eN. *)
Lemma trim_to_zero_keeps_everything :
  ceiling (tuned_handler 1 5 0 ["e1"; "e2"; "e3"; "e4"; "e5"; "e6"; "e7"])
    <= Z.of_nat (length (metrics
         (tuned_handler 1 5 0 ["e1"; "e2"; "e3"; "e4"; "e5"; "e6"; "e7"]))) /\
  target (tuned_handler 1 5 0 ["e1"; "e2"; "e3"; "e4"; "e5"; "e6"; "e7"]) = 0 /\
  skipn (7 - 0) ["e1"; "e2"; "e3"; "e4"; "e5"; "e6"; "e7"] = @nil string /\
  metrics (snd (trim_backlog
     (tuned_handler 1 5 0 ["e1"; "e2"; "e3"; "e4"; "e5"; "e6"; "e7"])))
  = ["e1"; "e2"; "e3"; "e4"; "e5"; "e6"; "e7"].
Proof.
  split; [vm_compute; intros D; discriminate D|].
  vm_compute. repeat split.
Qed.

(* ===================================================================== *)
(** ** Calls made by the connection methods                               *)
(* ===================================================================== *)

Lemma sendalls_app e1 e2 : sendalls (e1 ++ e2) = sendalls e1 ++ sendalls e2.
Proof.
  induction e1 as [|ev e1 IH]; [reflexivity|].
  destruct ev; simpl; rewrite ?IH; reflexivity.
Qed.

Lemma socket_calls_app e1 e2 :
  socket_calls (e1 ++ e2) = socket_calls e1 ++ socket_calls e2.
Proof.
  induction e1 as [|ev e1 IH]; [reflexivity|].
  destruct ev; simpl; rewrite ?IH; reflexivity.
Qed.


Lemma quiet_same_history h h' : history h' = history h -> quiet h h'.
Proof. intros E. exists []. rewrite app_nil_r. auto. Qed.

Lemma quiet_trans h1 h2 h3 : quiet h1 h2 -> quiet h2 h3 -> quiet h1 h3.
Proof.
  intros (e1 & H1 & S1 & K1) (e2 & H2 & S2 & K2). exists (e1 ++ e2).
  rewrite H2, H1, app_assoc, sendalls_app, socket_calls_app, S1, S2, K1, K2.
  auto.
Qed.

Lemma quiet_record ev h : plain ev = true -> quiet h (record ev h).
Proof.
  intros Hev. exists [ev]. split; [reflexivity|].
  destruct ev; try discriminate Hev; auto.
Qed.

Lemma no_send_same_history h h' : history h' = history h -> no_send h h'.
Proof. intros E. exists []. rewrite app_nil_r. auto. Qed.

Lemma no_send_trans h1 h2 h3 : no_send h1 h2 -> no_send h2 h3 -> no_send h1 h3.
Proof.
  intros (e1 & H1 & S1) (e2 & H2 & S2). exists (e1 ++ e2).
  rewrite H2, H1, app_assoc, sendalls_app, S1, S2. auto.
Qed.

Lemma no_send_record ev h :
  sendalls [ev] = [] -> no_send h (record ev h).
Proof. intros Hev. exists [ev]. auto. Qed.

Lemma configure_and_connect_quiet w h :
  quiet h (snd (configure_and_connect w h)).
Proof.
  apply stable_configure_and_connect;
    first [ exact quiet_trans | exact quiet_record
          | intros; now apply quiet_same_history ].
Qed.

Lemma reconnect_no_send w h : no_send h (snd (reconnect_if_needed w h)).
Proof.
  apply stable_reconnect_if_needed;
    first [ exact no_send_trans
          | intros; now apply no_send_same_history
          | intros ev h0 Hev; apply no_send_record; now destruct ev
          | intros; now apply no_send_record ].
Qed.

(** One run of [_connect] asks for exactly one socket, first thing, and
    never sends. *)
Lemma _connect_history w h :
  exists evs,
    history (snd (_connect w h)) = history h ++ EvSocket (stream_of h) :: evs /\
    sendalls evs = [] /\ socket_calls evs = [].
Proof.
  unfold _connect, bind, get, call. simpl.
  destruct (socket_socket w (history h) (stream_of h)) as [s|e]; simpl.
  - destruct (configure_and_connect_quiet w
                (set_socket s (record (EvSocket (stream_of h)) h)))
      as (evs & H & S & K).
    exists evs. rewrite H. simpl. rewrite <- app_assoc. auto.
  - exists []. auto.
Qed.

(** C5 (evaluation at the failing input).  When [socket.socket] raises,
    line 160 raises outside every [try] of [_connect]: the exception reaches
    the caller, no log line is written and [self.socket] keeps its value. *)
Theorem _connect_raises_on_socket_error (w : world) (h : handler) (e : exn) :
  socket_socket w (history h) (stream_of h) = Raise e ->
  _connect w h = (Raise e, record (EvSocket (stream_of h)) h).
Proof.
  intros H. unfold _connect, bind, get, call. simpl. rewrite H. reflexivity.
Qed.

(** C5 at a handler with the default options in a process that has no file
    descriptor left. *)
Lemma _connect_raises_on_socket_error_witness :
  fst (_connect out_of_descriptors (default_handler [])) =
  Raise (SocketError 24).
Proof.
  exact (f_equal fst
    (_connect_raises_on_socket_error out_of_descriptors (default_handler [])
       (SocketError 24) eq_refl)).
Defined.

(** *** Connection failures that are absorbed *)

Lemma bind_ok {A B} (m : M A) (k : A -> M B) h a h1 :
  m h = (Ok a, h1) -> bind m k h = k a h1.
Proof. intros E. unfold bind. now rewrite E. Qed.

Lemma on_socket_some {A} (f : sock -> M A) h sk :
  socket h = Some sk -> on_socket f h = f sk h.
Proof. intros Hs. unfold on_socket, bind, get. now rewrite Hs. Qed.

Section Absorbed.

Variable w : world.
Hypothesis options_return :
  forall hist sk l o v, sock_setsockopt w hist sk l o v = Ok tt.
Hypothesis timeout_returns :
  forall hist sk t, sock_settimeout w hist sk t = Ok tt.

Lemma setsockopt_returns l o v h sk :
  socket h = Some sk ->
  setsockopt w l o v h = (Ok tt, record (EvSetsockopt sk l o v) h).
Proof.
  intros Hs. unfold setsockopt. rewrite (on_socket_some _ h sk Hs).
  unfold call. now rewrite options_return.
Qed.

Lemma settimeout_returns t h sk :
  socket h = Some sk ->
  settimeout w t h = (Ok tt, record (EvSettimeout sk t) h).
Proof.
  intros Hs. unfold settimeout. rewrite (on_socket_some _ h sk Hs).
  unfold call. now rewrite timeout_returns.
Qed.

Lemma set_keepalives_returns kai h sk :
  socket h = Some sk ->
  exists h', set_keepalives w kai h = (Ok tt, h') /\ socket h' = Some sk.
Proof.
  intros Hs. unfold set_keepalives. eexists. split.
  - erewrite bind_ok by reflexivity.
    erewrite bind_ok by (apply setsockopt_returns; exact Hs).
    erewrite bind_ok by (apply setsockopt_returns; exact Hs).
    erewrite bind_ok by (apply setsockopt_returns; exact Hs).
    apply setsockopt_returns. exact Hs.
  - exact Hs.
Qed.

(** Lines 179-191: [connect] inside its [try]. *)
Lemma guarded_connect_absorbs hst prt h sk :
  socket h = Some sk ->
  let out :=
    try_except
      (run connect w hst prt;
       log DEBUG "SensuHandler: Established connection to sensu server %s:%d."
           [AVal hst; AInt prt])
      (fun ex =>
         run log ERROR "SensuHandler: Failed to connect to %s:%i. %s."
                 [AVal hst; AInt prt; AExn ex];
         _close) h in
  fst out = Ok tt /\
  (forall e, sock_connect w (history h) sk hst prt = Raise e ->
             socket (snd out) = None).
Proof.
  intros Hs out.
  assert (E : connect w hst prt h =
              (sock_connect w (history h) sk hst prt,
               record (EvConnect sk hst prt) h)).
  { unfold connect. now rewrite (on_socket_some _ h sk Hs). }
  unfold out, try_except, bind, log, modify. rewrite E.
  destruct (sock_connect w (history h) sk hst prt) as [[]|e]; simpl.
  - split; [reflexivity | discriminate].
  - rewrite _close_eq. split; reflexivity.
Qed.

(** The failures of [connect] itself (resolution, refusal, timeout) and a
    [None] socket are absorbed: where setting options and the timeout
    returns, [_connect] returns, and leaves no socket when [socket.socket]
    gave none or [connect] raised. *)
Lemma _connect_absorbs h s :
  socket_socket w (history h) (stream_of h) = Ok s ->
  fst (_connect w h) = Ok tt /\
  (s = None -> socket (snd (_connect w h)) = None) /\
  ((forall hist sk hst prt, exists e, sock_connect w hist sk hst prt = Raise e) ->
   socket (snd (_connect w h)) = None).
Proof.
  intros Hsock. unfold _connect.
  erewrite bind_ok by reflexivity.
  erewrite bind_ok by (unfold call; rewrite Hsock; reflexivity).
  erewrite bind_ok by reflexivity.
  set (h0 := set_socket s (record (EvSocket (stream_of h)) h)).
  assert (Hs0 : socket h0 = s) by reflexivity.
  clearbody h0. unfold configure_and_connect.
  erewrite bind_ok by reflexivity. rewrite Hs0.
  destruct s as [sk|].
  2: { erewrite bind_ok by reflexivity. rewrite _close_eq. auto. }
  do 3 (erewrite bind_ok by reflexivity).
  assert (Hka : exists h1,
    (if (negb (proto h0 =? "udp")%string && keepalive h0)%bool
     then set_keepalives w (keepaliveinterval h0) else ret tt) h0 = (Ok tt, h1)
    /\ socket h1 = Some sk).
  { destruct (negb (proto h0 =? "udp")%string && keepalive h0)%bool.
    - apply set_keepalives_returns. exact Hs0.
    - exists h0. auto. }
  destruct Hka as (h1 & Hka & Hs1).
  erewrite bind_ok by exact Hka.
  erewrite bind_ok by reflexivity.
  erewrite bind_ok by (apply settimeout_returns; exact Hs1).
  do 2 (erewrite bind_ok by reflexivity).
  match goal with
  | |- context [try_except ?m ?hd ?st] =>
      destruct (guarded_connect_absorbs
                  (host (record (EvSettimeout sk (timeout h1)) h1))
                  (port (record (EvSettimeout sk (timeout h1)) h1))
                  (record (EvSettimeout sk (timeout h1)) h1) sk Hs1)
        as [Hret Hnone]
  end.
  split; [exact Hret|]. split; [discriminate|].
  intros Hall.
  match type of Hnone with
  | forall e, sock_connect w ?a ?b ?c ?d = _ -> _ =>
      destruct (Hall a b c d) as [e He]; exact (Hnone e He)
  end.
Qed.

End Absorbed.

(* ===================================================================== *)
(** ** Transmission and the single retry                                  *)
(* ===================================================================== *)

Lemma sendall_some w data h sk :
  socket h = Some sk ->
  sendall w data h =
  (sock_sendall w (history h) sk data, record (EvSendall sk data) h).
Proof. intros Hs. unfold sendall, on_socket, bind, get, call. now rewrite Hs. Qed.

Lemma sendall_none w data h :
  socket h = None -> sendall w data h = (Raise AttributeError, h).
Proof. intros Hs. unfold sendall, on_socket, bind, get. now rewrite Hs. Qed.

Lemma _send_data_retry w data h sk e :
  socket h = Some sk ->
  sock_sendall w (history h) sk data = Raise e ->
  _send_data w data h =
  (run _connect w; sendall w data) (after_failed_send sk data h).
Proof.
  intros Hs Hf. unfold _send_data, try_except.
  rewrite (sendall_some w data h sk Hs), Hf.
  unfold bind at 1. rewrite _close_eq. simpl. rewrite Hs. reflexivity.
Qed.




(* ===================================================================== *)
(** ** The flush                                                          *)
(* ===================================================================== *)

Lemma send_failed_socket e h : socket (snd (send_failed e h)) = None.
Proof. rewrite send_failed_eq, _close_eq. reflexivity. Qed.

Lemma send_failed_metrics e h : metrics (snd (send_failed e h)) = metrics h.
Proof. rewrite send_failed_eq, _close_eq. simpl. now destruct (socket h). Qed.


Lemma slice_from_nil {A} (i : Z) : slice_from (@nil A) i = [].
Proof. unfold slice_from. now rewrite skipn_nil. Qed.

Lemma trimmed_nil h : trimmed h [] = [].
Proof.
  unfold trimmed. destruct (Z.of_nat (length (@nil string)) >=? ceiling h);
    [apply slice_from_nil | reflexivity].
Qed.

Lemma _send_metrics w h :
  metrics (snd (_send w h)) =
  trimmed h (metrics (snd (try_except (send_attempt w) send_failed h))).
Proof.
  rewrite _send_eq. simpl. rewrite trim_backlog_metrics.
  apply trimmed_same_options, inner_same_options.
Qed.

(** A [sendall] that returned was answered by the world on a socket the
    handler still holds. *)
Lemma sendall_returned w data h h2 :
  sendall w data h = (Ok tt, h2) ->
  exists sk,
    socket h2 = Some sk /\
    history h2 = history h ++ [EvSendall sk data] /\
    sock_sendall w (history h) sk data = Ok tt.
Proof.
  intros E. destruct (socket h) as [sk|] eqn:Hs.
  - rewrite (sendall_some w data h sk Hs) in E. inversion E; subst.
    exists sk. simpl. auto.
  - rewrite (sendall_none w data h Hs) in E. discriminate E.
Qed.

(** When [_send_data] returns, its last act was a [sendall] of the payload
    that the world accepted, on the socket the handler ends with. *)
Lemma _send_data_returned w data h h2 :
  _send_data w data h = (Ok tt, h2) ->
  exists sk hist,
    socket h2 = Some sk /\
    history h2 = hist ++ [EvSendall sk data] /\
    sock_sendall w hist sk data = Ok tt.
Proof.
  unfold _send_data, try_except. intros E.
  destruct (sendall w data h) as [[[]|e] h1] eqn:E1.
  - inversion E; subst.
    destruct (sendall_returned w data h h2 E1) as (sk & ? & ? & ?). eauto.
  - unfold bind in E.
    destruct (_close h1) as [[[]|e1] h1a]; [|discriminate E].
    destruct (log ERROR _ _ h1a) as [[[]|e2] h1b]; [|discriminate E].
    destruct (_connect w h1b) as [[[]|e3] h1c]; [|discriminate E].
    destruct (sendall_returned w data h1c h2 E) as (sk & ? & ? & ?). eauto.
Qed.


(** A flush on a connection whose every send fails raises the second
    failure and keeps the entry. *)
Example flush_on_broken_pipe :
  fst (_send broken_pipe (connected_handler 0%nat ["m"])) = Raise (SocketError 32)
  /\ metrics (snd (_send broken_pipe (connected_handler 0%nat ["m"]))) = ["m"]
  /\ socket (snd (_send broken_pipe (connected_handler 0%nat ["m"]))) = None.
Proof. vm_compute. auto. Qed.

(** A flush whose first send fails and whose retry succeeds empties the
    backlog and keeps the new socket. *)
Example flush_on_flaky_link :
  fst (_send flaky (connected_handler 0%nat ["m"])) = Ok tt
  /\ metrics (snd (_send flaky (connected_handler 0%nat ["m"]))) = []
  /\ socket (snd (_send flaky (connected_handler 0%nat ["m"]))) = Some 3%nat.
Proof. vm_compute. auto. Qed.

Lemma no_send_since h h' : no_send h h' -> sendalls (since h h') = [].
Proof. intros (evs & E & S). now rewrite (since_app h h' evs E). Qed.

Lemma trim_backlog_no_send h : no_send h (snd (trim_backlog h)).
Proof.
  rewrite trim_backlog_eq. simpl.
  destruct (Z.of_nat (length (metrics h)) >=? ceiling h).
  - eexists. split; [reflexivity|]. reflexivity.
  - now apply no_send_same_history.
Qed.

Lemma reconnect_if_needed_none w h :
  socket h = None ->
  reconnect_if_needed w h =
  _connect w
    (record (EvLog DEBUG "SensuHandler: Socket is not connected. Reconnecting." [])
       h).
Proof. intros Hs. unfold reconnect_if_needed, bind, get. now rewrite Hs. Qed.




(** C9.  When the transmission of a flush returns normally, on the first
    send or on the retry, the flush returns normally with an empty backlog
    and the socket it holds is the one the accepted send went out on: the
    send is the last call of the transmission and no close follows it. *)
Theorem successful_flush_keeps_connection (w : world) (h h1 h2 : handler)
    (sk : sock) :
  reconnect_if_needed w h = (Ok tt, h1) ->
  socket h1 = Some sk ->
  _send_data w (join (metrics h1)) h1 = (Ok tt, h2) ->
  let out := _send w h in
  fst out = Ok tt /\
  metrics (snd out) = [] /\
  socket (snd out) = socket h2 /\
  (exists sk' hist,
     socket (snd out) = Some sk' /\
     history h2 = hist ++ [EvSendall sk' (join (metrics h1))] /\
     sock_sendall w hist sk' (join (metrics h1)) = Ok tt) /\
  closes (since h2 (snd out)) = [].
Proof.
  intros Erec Hs1 Esd out.
  pose proof (inner_cases w h) as Hin. simpl in Hin.
  rewrite Erec, Hs1, Esd in Hin.
  assert (Eout : out = (Ok tt, snd (trim_backlog (set_metrics [] h2))))
    by (unfold out; now rewrite _send_eq, Hin).
  assert (Hsock : socket (snd out) = socket h2)
    by (rewrite Eout; simpl; now rewrite trim_backlog_socket).
  rewrite Eout at 1 2. simpl.
  split; [reflexivity|].
  split; [rewrite trim_backlog_metrics; apply trimmed_nil|].
  split; [exact Hsock|].
  split.
  - destruct (_send_data_returned w _ h1 h2 Esd) as (sk' & hist & H1 & H2 & H3).
    exists sk', hist. rewrite Hsock. auto.
  - rewrite Eout. simpl.
    exact (proj1 (trim_backlog_since (set_metrics [] h2))).
Qed.

(** C9 on a reachable server: the entry goes out on socket 0, which the
    handler still holds afterwards. *)
Lemma successful_flush_keeps_connection_witness :
  fst (_send up (connected_handler 0%nat ["m"])) = Ok tt /\
  metrics (snd (_send up (connected_handler 0%nat ["m"]))) = [] /\
  socket (snd (_send up (connected_handler 0%nat ["m"]))) = Some 0%nat.
Proof.
  assert (Erec : reconnect_if_needed up (connected_handler 0%nat ["m"])
                 = (Ok tt, connected_handler 0%nat ["m"])) by reflexivity.
  assert (Esd : _send_data up (join (metrics (connected_handler 0%nat ["m"])))
                  (connected_handler 0%nat ["m"])
                = (Ok tt,
                   record (EvSendall 0%nat "m") (connected_handler 0%nat ["m"])))
    by (vm_compute; reflexivity).
  pose proof (successful_flush_keeps_connection up
                (connected_handler 0%nat ["m"]) _ _ 0%nat Erec eq_refl Esd) as H.
  destruct H as (H1 & H2 & H3 & _). repeat split; assumption.
Defined.

(* ===================================================================== *)
(** ** [process]                                                          *)
(* ===================================================================== *)

Lemma index_in {A} (l : list A) (i : Z) (x : A) :
  0 <= i -> nth_error l (Z.to_nat i) = Some x -> index l i = Ok x.
Proof.
  intros Hi Hx. unfold index.
  assert (Hlt : (Z.to_nat i < length l)%nat)
    by (apply nth_error_Some; congruence).
  destruct (Z.ltb_spec i 0); [lia|].
  destruct (Z.leb_spec 0 i); [|lia].
  destruct (Z.ltb_spec i (Z.of_nat (length l))); [|lia].
  simpl. now rewrite Hx.
Qed.


(** [process] on a metric of at least three tokens: the entry is appended,
    and the backlog is flushed, once, when its new length has reached
    [batch_size]. *)
Lemma process_eq json_dumps w m h :
  (3 <= length (split m))%nat ->
  process json_dumps w m h =
  if Z.of_nat (length (metrics h ++ [entry_of json_dumps m])) >=? batch_size h
  then _send w (set_metrics (metrics h ++ [entry_of json_dumps m]) h)
  else (Ok tt, set_metrics (metrics h ++ [entry_of json_dumps m]) h).
Proof.
  intros H3. unfold process, entry_of.
  destruct (split m) as [|name [|output [|issued rest]]];
    simpl in H3; try lia.
  unfold bind, lift.
  rewrite (index_in _ 1 output) by (simpl; first [lia | reflexivity]).
  rewrite (index_in _ 2 issued) by (simpl; first [lia | reflexivity]).
  rewrite (index_in _ 0 name) by (simpl; first [lia | reflexivity]).
  unfold modify, get. simpl.
  now destruct (Z.of_nat (length (metrics h ++ _)) >=? batch_size h).
Qed.




(** The third metric reaches the batch size: the three entries go out in
    one send and the backlog is empty again. *)
Example third_metric_flushes :
  sendalls (history (snd (process_all sample_dumps up
                            ["a 1 2"; "b 3 4"; "c 5 6"] batching_handler)))
  = [join (map (entry_of sample_dumps) ["a 1 2"; "b 3 4"; "c 5 6"])] /\
  metrics (snd (process_all sample_dumps up
                  ["a 1 2"; "b 3 4"; "c 5 6"] batching_handler)) = [].
Proof. vm_compute. auto. Qed.

(** During an outage every call from the second on flushes again, one
    connect attempt each; the tenth brings the backlog to the ceiling and
    the eight newest entries stay, the eleventh makes nine. *)
Example outage_keeps_newest :
  metrics (snd (process_all sample_dumps unreachable ten_metrics pairs_handler))
  = map (entry_of sample_dumps) (skipn 2 ten_metrics) /\
  length (metrics (snd (process_all sample_dumps unreachable
                          (ten_metrics ++ ["m11 1 10"]) pairs_handler)))
  = 9%nat /\
  length (socket_calls (history (snd (process_all sample_dumps unreachable
                          (ten_metrics ++ ["m11 1 10"]) pairs_handler))))
  = 10%nat.
Proof. vm_compute. auto. Qed.

(** C10.  On a metric whose string form has fewer than three
    whitespace-separated tokens, [process] raises IndexError and leaves the
    handler as it was: nothing is appended, nothing is sent.  With three
    tokens or more the entry appended is the JSON text of the dict whose
    "name" is the first token, "output" the second and "issued" the third,
    followed by a newline; further tokens are ignored. *)
Theorem process_needs_three_tokens
    (json_dumps : list (string * string) -> string)
    (w : world) (m : string) (h : handler) :
  ((length (split m) < 3)%nat ->
   process json_dumps w m h = (Raise IndexError, h)) /\
  (forall name output issued rest,
     split m = name :: output :: issued :: rest ->
     let entry :=
       String.append
         (json_dumps [("output", output); ("issued", issued); ("name", name)])
         (String "010"%char "") in
     process json_dumps w m h =
     (if Z.of_nat (length (metrics h ++ [entry])) >=? batch_size h
      then _send w else ret tt)
       (set_metrics (metrics h ++ [entry]) h)).
Proof.
  split.
  - intros Hlt. unfold process, bind, lift.
    destruct (split m) as [|name [|output [|issued rest]]];
      simpl in Hlt; try lia; reflexivity.
  - intros name output issued rest Hsplit entry.
    assert (H3 : (3 <= length (split m))%nat)
      by (rewrite Hsplit; simpl; lia).
    rewrite (process_eq json_dumps w m h H3).
    unfold entry_of. rewrite Hsplit. fold entry.
    now destruct (Z.of_nat (length (metrics h ++ [entry])) >=? batch_size h).
Qed.

(** A metric with a name and a value but no timestamp. *)
Example process_two_tokens :
  process sample_dumps up "cpu.load 0.5" batching_handler
  = (Raise IndexError, batching_handler).
Proof. vm_compute. reflexivity. Qed.

(* ===================================================================== *)
(** ** Construction                                                       *)
(* ===================================================================== *)

Lemma __init___rejected int_of_str w config e :
  read_options int_of_str config = Raise e ->
  __init__ int_of_str w config = (Raise e, []).
Proof. intros E. unfold __init__. now rewrite E. Qed.

Lemma rbind_raise {A B} (r : res A) (k : A -> res B) e :
  r = Raise e -> rbind r k = Raise e.
Proof. now intros ->. Qed.

(** A value [int] rejects under one of the converted options stops
    [read_options], at that option or at an earlier one. *)
Lemma read_options_rejects int_of_str config key s :
  In key int_options ->
  config !! key = Some (VStr s) ->
  int_of_str s = None ->
  exists e, read_options int_of_str config = Raise e.
Proof.
  intros Hin Hcfg Hs.
  assert (Hbad : rbind (config_get config key) (int int_of_str)
                 = Raise ValueError).
  { unfold config_get. rewrite Hcfg. simpl. now rewrite Hs. }
  unfold int_options in Hin. simpl in Hin.
  repeat match goal with
  | H : _ \/ _ |- _ => destruct H as [H|H]
  end; try contradiction; subst key; unfold read_options;
  repeat match goal with
  | |- exists e, rbind ?r ?k = Raise e =>
      first
        [ (exists ValueError; apply rbind_raise; exact Hbad)
        | let a := fresh "a" in
          let e0 := fresh "e" in
          destruct r as [a|e0]; [simpl | (exists e0; reflexivity)] ]
  end.
Qed.

(** C6 (as the code has it).  Construction fails before any call on the
    socket library or the logger when one of the options it converts with
    [int] (port, timeout, keepaliveinterval, batch and the two multipliers)
    holds a string [int] rejects; with a protocol and a host to read, a
    non-numeric port raises ValueError.  That is all the checking there is:
    whatever integers the options hold, of any sign and in any order, they
    become the fields of the handler, which then goes on to connect. *)
Theorem construction_checks_conversions_only
    (int_of_str : string -> option Z) (w : world)
    (config : gmap string value) :
  (forall key s,
     In key int_options ->
     config !! key = Some (VStr s) ->
     int_of_str s = None ->
     exists e, __init__ int_of_str w config = (Raise e, [])) /\
  (forall p hv s,
     config !! "proto" = Some (VStr p) ->
     config !! "host" = Some hv ->
     config !! "port" = Some (VStr s) ->
     int_of_str s = None ->
     __init__ int_of_str w config = (Raise ValueError, [])) /\
  (forall p hv prt t ka kai b mx tr,
     config !! "proto" = Some (VStr p) ->
     config !! "host" = Some hv ->
     config !! "port" = Some (VInt prt) ->
     config !! "timeout" = Some (VInt t) ->
     config !! "keepalive" = Some ka ->
     config !! "keepaliveinterval" = Some (VInt kai) ->
     config !! "batch" = Some (VInt b) ->
     config !! "max_backlog_multiplier" = Some (VInt mx) ->
     config !! "trim_backlog_multiplier" = Some (VInt tr) ->
     let h0 :=
       {| socket := None; proto := strip (lower p); host := hv; port := prt;
          timeout := t; keepalive := truth ka; keepaliveinterval := kai;
          batch_size := b; max_backlog_multiplier := mx;
          trim_backlog_multiplier := tr; metrics := []; history := [] |} in
     read_options int_of_str config = Ok h0 /\
     __init__ int_of_str w config =
       (match fst (_connect w h0) with
        | Ok _ => Ok (snd (_connect w h0))
        | Raise e => Raise e
        end, history (snd (_connect w h0))) /\
     batch_size (snd (_connect w h0)) = b /\
     max_backlog_multiplier (snd (_connect w h0)) = mx /\
     trim_backlog_multiplier (snd (_connect w h0)) = tr).
Proof.
  split; [|split].
  - intros key s Hin Hcfg Hs.
    destruct (read_options_rejects int_of_str config key s Hin Hcfg Hs)
      as [e He].
    exists e. now apply __init___rejected.
  - intros p hv s Hp Hh Hport Hs. apply __init___rejected.
    unfold read_options, config_get. rewrite Hp, Hh, Hport. simpl.
    now rewrite Hs.
  - intros p hv prt t ka kai b mx tr Hp Hh Hport Ht Hka Hkai Hb Hmx Htr h0.
    assert (E : read_options int_of_str config = Ok h0).
    { unfold read_options, config_get.
      rewrite Hp, Hh, Hport, Ht, Hka, Hkai, Hb, Hmx, Htr. reflexivity. }
    split; [exact E|]. split.
    + unfold __init__. rewrite E.
      now destruct (_connect w h0) as [[[]|e] h1].
    + assert (Hopt : same_options h0 (snd (_connect w h0))).
      { apply (stable__connect same_options same_options_refl
                 same_options_trans);
          intros; unfold same_options; simpl; tauto. }
      unfold same_options in Hopt. simpl in Hopt. tauto.
Qed.

(** A port given by name stops construction with ValueError before
    anything is called. *)
Example named_port_rejected :
  __init__ no_literal up named_port_config = (Raise ValueError, []).
Proof. vm_compute. reflexivity. Qed.

(** C6 as stated fails: with batch 0, max_backlog_multiplier 1 and
    trim_backlog_multiplier 3 the handler is built and connected, and it
    violates every part of the configuration invariant. *)
Lemma unchecked_configuration_accepted :
  exists h,
    fst (__init__ no_literal up unchecked_config) = Ok h /\
    socket_calls (snd (__init__ no_literal up unchecked_config))
      = [SOCK_STREAM] /\
    batch_size h = 0 /\
    max_backlog_multiplier h = 1 /\
    trim_backlog_multiplier h = 3 /\
    ~ config_ok h.
Proof.
  eexists. split; [vm_compute; reflexivity|].
  split; [vm_compute; reflexivity|].
  repeat split. unfold config_ok. simpl. lia.
Qed.

(* ===================================================================== *)
(** ** Teardown                                                           *)
(* ===================================================================== *)

Lemma set_socket_same h : set_socket (socket h) h = h.
Proof. now destruct h. Qed.

(** X1.  Destroying the handler never raises, leaves it without a socket and
    with its backlog, and closes the socket it held exactly once (nothing is
    called when it held none).  Closing is idempotent: on the state it
    leaves, [_close] returns that very state. *)
Theorem teardown_closes_once (h : handler) :
  let h1 := snd (__del__ h) in
  fst (__del__ h) = Ok tt /\
  socket h1 = None /\
  metrics h1 = metrics h /\
  since h h1 = match socket h with Some sk => [EvClose sk] | None => [] end /\
  _close h1 = (Ok tt, h1).
Proof.
  unfold __del__. rewrite _close_eq. simpl.
  split; [reflexivity|]. split; [reflexivity|].
  destruct (socket h) as [sk|] eqn:Hs.
  - split; [reflexivity|]. split.
    + now apply since_app.
    + rewrite _close_eq. reflexivity.
  - split; [reflexivity|]. split.
    + apply since_app. simpl. now rewrite app_nil_r.
    + rewrite _close_eq. reflexivity.
Qed.

(* ===================================================================== *)
(** ** What a flush can do to the backlog                                 *)
(* ===================================================================== *)

Ltac options_frame :=
  first [ exact same_options_refl | exact same_options_trans
        | intros; unfold same_options; simpl; tauto ].

Lemma _connect_same_options w h : same_options h (snd (_connect w h)).
Proof. apply stable__connect; options_frame. Qed.

Lemma _send_data_same_options w data h :
  same_options h (snd (_send_data w data h)).
Proof. apply stable__send_data; options_frame. Qed.

(** X2.  Connecting and transmitting never touch the backlog or the
    options: whatever the world answers, and whether they return or raise,
    [_connect] and [_send_data] (with its close, reconnect and retry) leave
    [metrics] and every option as they found them.  Only [_send] and
    [process] change the backlog. *)
Theorem transmission_keeps_backlog (w : world) (data : string) (h : handler) :
  metrics (snd (_connect w h)) = metrics h /\
  same_options h (snd (_connect w h)) /\
  metrics (snd (_send_data w data h)) = metrics h /\
  same_options h (snd (_send_data w data h)).
Proof.
  split; [apply _connect_same_backlog|].
  split; [apply _connect_same_options|].
  split; [apply _send_data_same_backlog | apply _send_data_same_options].
Qed.

(** The backlog the inner try/except of [_send] leaves is the one it found,
    or empty after a transmission that returned; it is the one it found
    whenever a socket is not held at the end. *)
Lemma inner_backlog w h :
  let inner := try_except (send_attempt w) send_failed h in
  (metrics (snd inner) = metrics h /\ socket (snd inner) = None) \/
  (metrics (snd inner) = [] /\ fst inner = Ok tt).
Proof.
  pose proof (inner_cases w h) as Hin. simpl in Hin. simpl.
  pose proof (reconnect_same_backlog w h) as Hr.
  destruct (reconnect_if_needed w h) as [[[]|e0] h1]; simpl in Hr.
  - destruct (socket h1) as [sk|] eqn:Hs1.
    + pose proof (_send_data_same_backlog w (join (metrics h1)) h1) as Hd.
      destruct (_send_data w (join (metrics h1)) h1) as [[[]|e1] h2];
        simpl in Hd; rewrite Hin.
      * right. auto.
      * left. rewrite send_failed_metrics, send_failed_socket. split; congruence.
    + rewrite Hin. left. simpl. auto.
  - rewrite Hin. left. rewrite send_failed_metrics, send_failed_socket. auto.
Qed.

(** X3.  After any flush, returned or raised, a handler that still holds a
    socket has an empty backlog: entries stay queued only while the handler
    is disconnected. *)
Theorem backlog_kept_only_disconnected (w : world) (h : handler) :
  socket (snd (_send w h)) = None \/ metrics (snd (_send w h)) = [].
Proof.
  destruct (inner_backlog w h) as [[Hm Hs]|[Hm Hf]].
  - left. rewrite _send_eq. simpl. now rewrite trim_backlog_socket.
  - right. rewrite _send_metrics, Hm. apply trimmed_nil.
Qed.

Lemma trimmed_suffix h ms : exists dropped, ms = dropped ++ trimmed h ms.
Proof.
  unfold trimmed.
  destruct (Z.of_nat (length ms) >=? ceiling h).
  - unfold slice_from. eexists. symmetry. apply firstn_skipn.
  - now exists [].
Qed.

Lemma _send_suffix w h :
  exists dropped, metrics h = dropped ++ metrics (snd (_send w h)).
Proof.
  rewrite _send_metrics.
  destruct (inner_backlog w h) as [[Hm _]|[Hm _]]; rewrite Hm.
  - apply trimmed_suffix.
  - exists (metrics h). now rewrite trimmed_nil, app_nil_r.
Qed.

Lemma process_raise_unchanged json_dumps w m h :
  (length (split m) < 3)%nat ->
  process json_dumps w m h = (Raise IndexError, h).
Proof.
  intros Hlt. unfold process, bind, lift.
  destruct (split m) as [|name [|output [|issued rest]]];
    simpl in Hlt; try lia; reflexivity.
Qed.

(** One call of [process] on a metric of three tokens or more: the backlog
    left is a suffix of the backlog found followed by the new entry. *)
Lemma process_suffix json_dumps w m h :
  (3 <= length (split m))%nat ->
  exists dropped,
    metrics h ++ [entry_of json_dumps m] =
    dropped ++ metrics (snd (process json_dumps w m h)).
Proof.
  intros H3. rewrite (process_eq json_dumps w m h H3).
  destruct (_ >=? _).
  - apply (_send_suffix w (set_metrics (metrics h ++ [entry_of json_dumps m]) h)).
  - now exists [].
Qed.

Lemma process_all_contiguous json_dumps w ms :
  well_formed ms ->
  forall h,
  exists dropped pending,
    metrics h ++ map (entry_of json_dumps) ms =
    dropped ++ metrics (snd (process_all json_dumps w ms h)) ++ pending /\
    (fst (process_all json_dumps w ms h) = Ok tt -> pending = []).
Proof.
  induction 1 as [|m ms Hm Hms IH]; intros h.
  - exists [], []. simpl. rewrite !app_nil_r. auto.
  - destruct (process_suffix json_dumps w m h Hm) as [d1 Hd1].
    assert (Hcons : metrics h ++ map (entry_of json_dumps) (m :: ms) =
                    (metrics h ++ [entry_of json_dumps m]) ++
                    map (entry_of json_dumps) ms)
      by (simpl; now rewrite <- app_assoc).
    rewrite Hcons, Hd1. clear Hcons Hd1.
    simpl process_all. unfold bind.
    destruct (process json_dumps w m h) as [[[]|e] h1]; simpl snd.
    + destruct (IH h1) as (d2 & pend & Hd2 & Hp).
      exists (d1 ++ d2), pend. split; [|exact Hp].
      rewrite <- !app_assoc. f_equal. exact Hd2.
    + exists d1, (map (entry_of json_dumps) ms). split; [|discriminate].
      simpl. now rewrite <- app_assoc.
Qed.

(** X4.  A flush only ever removes entries from the front of the backlog:
    in every world and under any options, the backlog it leaves is a suffix
    of the one it found.  So after any run of [process] calls from an empty
    backlog the entries queued are a contiguous run of the entries produced,
    in production order, and the newest ones when the run returned: nothing
    is reordered or duplicated in the queue, only the oldest are lost. *)
Theorem backlog_is_suffix
    (json_dumps : list (string * string) -> string)
    (w : world) (ms : list string) (h : handler) :
  (exists dropped, metrics h = dropped ++ metrics (snd (_send w h))) /\
  (well_formed ms -> metrics h = [] ->
   exists dropped pending,
     map (entry_of json_dumps) ms =
     dropped ++ metrics (snd (process_all json_dumps w ms h)) ++ pending /\
     (fst (process_all json_dumps w ms h) = Ok tt -> pending = [])).
Proof.
  split; [apply _send_suffix|].
  intros Hwf Hempty.
  destruct (process_all_contiguous json_dumps w ms Hwf h)
    as (d & pend & Hd & Hp).
  rewrite Hempty in Hd. simpl in Hd. eauto.
Qed.

(* ===================================================================== *)
(** ** Trimming under any options                                         *)
(* ===================================================================== *)

(** X5.  The backlog check under options nobody validated.  Below the
    ceiling it changes nothing and logs nothing.  At or above it, a positive
    target keeps the newest [target] entries, or all of them when there are
    fewer; a target of zero (the slice [metrics[0:]]) keeps everything, so
    the backlog is not bounded at all; a negative target drops that many of
    the oldest entries instead. *)
Theorem trim_under_any_options (h : handler) :
  let ms := metrics h in
  let kept := metrics (snd (trim_backlog h)) in
  (Z.of_nat (length ms) < ceiling h -> snd (trim_backlog h) = h) /\
  (ceiling h <= Z.of_nat (length ms) ->
   (0 < target h ->
    kept = skipn (length ms - Z.to_nat (target h)) ms /\
    length kept = Nat.min (length ms) (Z.to_nat (target h))) /\
   (target h = 0 -> kept = ms) /\
   (target h < 0 ->
    kept = skipn (Nat.min (length ms) (Z.to_nat (- target h))) ms)).
Proof.
  intros ms kept. split.
  - intros Hlt. rewrite trim_backlog_eq. simpl.
    destruct (Z.geb_spec (Z.of_nat (length (metrics h))) (ceiling h));
      [unfold ms in Hlt; lia | reflexivity].
  - intros Hge.
    assert (E : kept = slice_from ms (target h * -1)).
    { unfold kept. rewrite trim_backlog_metrics. unfold trimmed.
      destruct (Z.geb_spec (Z.of_nat (length (metrics h))) (ceiling h));
        [reflexivity | unfold ms in Hge; lia]. }
    split; [|split].
    + intros Hpos.
      assert (E' : kept = skipn (length ms - Z.to_nat (target h)) ms).
      { rewrite E. unfold slice_from.
        destruct (Z.ltb_spec (target h * -1) 0); [|lia]. f_equal. lia. }
      split; [exact E'|]. rewrite E', length_skipn. lia.
    + intros H0. rewrite E, H0. unfold slice_from.
      change (0 * -1 <? 0) with false. cbv iota.
      replace (Z.to_nat (Z.min (0 * -1) (Z.of_nat (length ms))))
        with 0%nat by lia.
      reflexivity.
    + intros Hneg. rewrite E. unfold slice_from.
      destruct (Z.ltb_spec (target h * -1) 0); [lia|]. f_equal. lia.
Qed.

(** X6.  Under the configuration invariant the warning of the backlog check
    tells the truth: when the check fires it writes exactly one WARN line,
    whose two numbers are the count of entries dropped and the count of
    entries kept. *)
Theorem trim_warning_counts (h : handler) :
  config_ok h ->
  ceiling h <= Z.of_nat (length (metrics h)) ->
  let kept := metrics (snd (trim_backlog h)) in
  exists msg,
    since h (snd (trim_backlog h)) =
    [EvLog WARN msg
       [AInt (Z.of_nat (length (metrics h) - length kept));
        AInt (Z.of_nat (length kept))]].
Proof.
  intros Hok Hge kept.
  destruct (config_ok_target h Hok) as [Hpos Hlt].
  assert (Hk : Z.of_nat (length kept) = target h).
  { unfold kept. rewrite trim_backlog_metrics, trimmed_at_ceiling by lia.
    rewrite length_skipn. lia. }
  eexists. apply since_app. rewrite trim_backlog_eq. simpl.
  destruct (Z.geb_spec (Z.of_nat (length (metrics h))) (ceiling h)); [|lia].
  simpl. do 4 f_equal.
  - f_equal. lia.
  - do 2 f_equal. lia.
Qed.

(** X6 on five entries with the default options: one dropped, four kept. *)
Lemma trim_warning_counts_witness :
  exists msg,
    since (default_handler ["a"; "b"; "c"; "d"; "e"])
          (snd (trim_backlog (default_handler ["a"; "b"; "c"; "d"; "e"]))) =
    [EvLog WARN msg [AInt 1; AInt 4]].
Proof.
  assert (Hok : config_ok (default_handler ["a"; "b"; "c"; "d"; "e"])).
  { unfold config_ok. simpl. lia. }
  assert (Hge : ceiling (default_handler ["a"; "b"; "c"; "d"; "e"]) <=
                Z.of_nat (length (metrics
                  (default_handler ["a"; "b"; "c"; "d"; "e"]))))
    by (vm_compute; intros D; discriminate D).
  exact (trim_warning_counts (default_handler ["a"; "b"; "c"; "d"; "e"])
           Hok Hge).
Defined.

(* ===================================================================== *)
(** ** Bounded memory                                                     *)
(* ===================================================================== *)

Lemma same_options_ceiling h h' :
  same_options h h' -> ceiling h' = ceiling h /\ (config_ok h -> config_ok h').
Proof.
  unfold same_options, ceiling, config_ok.
  intros (_ & _ & _ & _ & _ & _ & -> & -> & ->). tauto.
Qed.

Lemma _send_bounded w h : config_ok h -> bounded (snd (_send w h)).
Proof.
  intros Hok.
  destruct (same_options_ceiling h _ (_send_same_options w h)) as [Hc Hk].
  split; [now apply Hk|]. rewrite Hc, _send_metrics.
  destruct (config_ok_target h Hok) as [Hpos Hlt].
  set (ms := metrics (snd (try_except (send_attempt w) send_failed h))).
  destruct (Z.lt_ge_cases (Z.of_nat (length ms)) (ceiling h)) as [Hb|Hb].
  - now rewrite trimmed_below.
  - rewrite trimmed_at_ceiling by lia. rewrite length_skipn. lia.
Qed.

Lemma process_bounded json_dumps w m h :
  bounded h -> bounded (snd (process json_dumps w m h)).
Proof.
  intros [Hok Hlen].
  destruct (Nat.lt_ge_cases (length (split m)) 3) as [Hshort|Hwf].
  - rewrite process_raise_unchanged by exact Hshort. now split.
  - rewrite (process_eq json_dumps w m h Hwf).
    destruct (Z.geb_spec
                (Z.of_nat (length (metrics h ++ [entry_of json_dumps m])))
                (batch_size h)) as [Hge|Hlt].
    + apply _send_bounded. exact Hok.
    + split; [exact Hok|].
      change (Z.of_nat (length (metrics h ++ [entry_of json_dumps m]))
              < ceiling h).
      assert (batch_size h <= ceiling h)
        by (unfold ceiling, config_ok in *; nia).
      lia.
Qed.

Lemma process_all_bounded json_dumps w ms :
  forall h, bounded h -> bounded (snd (process_all json_dumps w ms h)).
Proof.
  induction ms as [|m ms IH]; intros h Hb; simpl; [exact Hb|].
  unfold bind.
  pose proof (process_bounded json_dumps w m h Hb) as H1.
  destruct (process json_dumps w m h) as [[[]|e] h1]; simpl in *.
  - now apply IH.
  - exact H1.
Qed.

(** X7.  Bounded memory.  Under the configuration invariant every flush,
    returned or raised, leaves the backlog strictly below the ceiling
    batch_size * max_backlog_multiplier; and a handler whose backlog is
    below the ceiling stays so through any run of [process] calls, in every
    world and whatever the metrics (malformed ones included), with its
    options unchanged. *)
Theorem backlog_stays_bounded
    (json_dumps : list (string * string) -> string)
    (w : world) (ms : list string) (h : handler) :
  config_ok h ->
  bounded (snd (_send w h)) /\
  (Z.of_nat (length (metrics h)) < ceiling h ->
   bounded (snd (process_all json_dumps w ms h)) /\
   Z.of_nat (length (metrics (snd (process_all json_dumps w ms h))))
     < ceiling h).
Proof.
  intros Hok. split; [now apply _send_bounded|].
  intros Hlen.
  assert (Hb : bounded h) by now split.
  pose proof (process_all_bounded json_dumps w ms h Hb) as H.
  split; [exact H|].
  destruct H as [_ H].
  assert (Hc : ceiling (snd (process_all json_dumps w ms h)) = ceiling h).
  { clear H Hb Hlen Hok. revert h.
    induction ms as [|m ms IH]; intros h; simpl; [reflexivity|].
    unfold bind.
    assert (Hp : ceiling (snd (process json_dumps w m h)) = ceiling h).
    { destruct (Nat.lt_ge_cases (length (split m)) 3) as [Hshort|Hwf].
      - now rewrite process_raise_unchanged.
      - rewrite (process_eq json_dumps w m h Hwf).
        destruct (_ >=? _); [|reflexivity].
        apply (same_options_ceiling
                 (set_metrics (metrics h ++ [entry_of json_dumps m]) h)).
        apply _send_same_options. }
    destruct (process json_dumps w m h) as [[[]|e] h1]; simpl in *.
    - now rewrite IH.
    - exact Hp. }
  now rewrite <- Hc.
Qed.

(** X7 during an outage: eleven metrics on a handler with ceiling ten leave
    fewer than ten entries. *)
Lemma backlog_stays_bounded_witness :
  Z.of_nat (length (metrics (snd (process_all sample_dumps unreachable
                       (ten_metrics ++ ["m11 1 10"]) pairs_handler)))) < 10.
Proof.
  assert (Hok : config_ok pairs_handler) by (unfold config_ok; simpl; lia).
  destruct (backlog_stays_bounded sample_dumps unreachable
              (ten_metrics ++ ["m11 1 10"]) pairs_handler Hok) as [_ H].
  apply H. reflexivity.
Defined.

(* ===================================================================== *)
(** ** What a flush sends                                                 *)
(* ===================================================================== *)

Ltac no_send_frame :=
  first [ exact no_send_trans
        | intros; now apply no_send_same_history
        | intros ev h0 Hev; apply no_send_record; now destruct ev
        | intros; now apply no_send_record ].

Lemma send_failed_no_send e h : no_send h (snd (send_failed e h)).
Proof. apply stable_send_failed; no_send_frame. Qed.

Lemma _connect_no_send w h : no_send h (snd (_connect w h)).
Proof. apply stable__connect; no_send_frame. Qed.

Lemma reconnect_if_needed_some w h sk :
  socket h = Some sk -> reconnect_if_needed w h = (Ok tt, h).
Proof. intros Hs. unfold reconnect_if_needed, bind, get. now rewrite Hs. Qed.

(** Events appended after a first one, with the sends among them. *)
Lemma history_then h h1 h2 ev rest l :
  history h1 = history h ++ ev :: rest ->
  sent l h1 h2 ->
  exists rest',
    history h2 = history h ++ ev :: rest' /\
    sendalls rest' = sendalls rest ++ l.
Proof.
  intros H1 (evs & H2 & Hl). exists (rest ++ evs).
  rewrite H2, H1, <- app_assoc, sendalls_app, Hl. auto.
Qed.

(** [_send_data] on a connected handler: the payload goes out first, and at
    most once more. *)
Lemma _send_data_events w data h sk :
  socket h = Some sk ->
  exists rest,
    history (snd (_send_data w data h)) = history h ++ EvSendall sk data :: rest /\
    (sendalls rest = [] \/ sendalls rest = [data]).
Proof.
  intros Hs.
  destruct (sock_sendall w (history h) sk data) as [[]|e] eqn:E.
  - exists []. split; [|now left].
    unfold _send_data, try_except. rewrite (sendall_some w data h sk Hs), E.
    reflexivity.
  - rewrite (_send_data_retry w data h sk e Hs E). unfold bind.
    pose proof (_connect_no_send w (after_failed_send sk data h)) as Hc.
    assert (H0 : history (after_failed_send sk data h) =
                 history h ++ EvSendall sk data ::
                   [EvClose sk;
                    EvLog ERROR "SensuHandler: Socket error, trying reconnect." []]).
    { simpl. now rewrite <- !app_assoc. }
    destruct (_connect w (after_failed_send sk data h)) as [[[]|e'] h2];
      simpl in Hc.
    + destruct (history_then h _ h2 _ _ [] H0 Hc) as (r2 & Hr2 & Hs2).
      simpl in Hs2.
      destruct (socket h2) as [sk'|] eqn:Hsk.
      * rewrite (sendall_some w data h2 sk' Hsk). simpl.
        exists (r2 ++ [EvSendall sk' data]). split.
        { rewrite Hr2, <- app_assoc. reflexivity. }
        right. now rewrite sendalls_app, Hs2.
      * rewrite (sendall_none w data h2 Hsk). simpl.
        exists r2. split; [exact Hr2 | now left].
    + destruct (history_then h _ h2 _ _ [] H0 Hc) as (r2 & Hr2 & Hs2).
      simpl in Hs2. exists r2. split; [exact Hr2 | now left].
Qed.

Lemma _send_events w h sk :
  socket h = Some sk ->
  exists rest,
    history (snd (_send w h)) =
      history h ++ EvSendall sk (join (metrics h)) :: rest /\
    (sendalls rest = [] \/ sendalls rest = [join (metrics h)]).
Proof.
  intros Hs.
  pose proof (inner_cases w h) as Hin. simpl in Hin.
  rewrite (reconnect_if_needed_some w h sk Hs), Hs in Hin.
  destruct (_send_data_events w (join (metrics h)) h sk Hs)
    as (r1 & Hr1 & Hs1).
  assert (Htail : no_send (snd (_send_data w (join (metrics h)) h))
                    (snd (_send w h))).
  { rewrite _send_eq.
    destruct (_send_data w (join (metrics h)) h) as [[[]|e] h2];
      rewrite Hin; simpl.
    - eapply no_send_trans; [|apply trim_backlog_no_send].
      now apply no_send_same_history.
    - eapply no_send_trans; [apply send_failed_no_send|].
      apply trim_backlog_no_send. }
  destruct (history_then h _ _ _ _ [] Hr1 Htail) as (r2 & Hr2 & Hs2).
  exists r2. split; [exact Hr2|]. rewrite Hs2, app_nil_r. exact Hs1.
Qed.

(** X8.  A flush on a connected handler hands the whole backlog to the
    socket as one payload, the entries concatenated in queue order: the
    first thing it does is that [sendall], and in every world the payload
    goes out once, or twice when the first send failed and the reconnect
    gave a socket; no other payload is ever sent. *)
Theorem flush_sends_whole_backlog (w : world) (h : handler) (sk : sock) :
  socket h = Some sk ->
  let payload := join (metrics h) in
  (exists rest,
     history (snd (_send w h)) = history h ++ EvSendall sk payload :: rest) /\
  (sendalls (since h (snd (_send w h))) = [payload] \/
   sendalls (since h (snd (_send w h))) = [payload; payload]).
Proof.
  intros Hs payload.
  destruct (_send_events w h sk Hs) as (rest & Hh & Hr).
  split; [now exists rest|].
  rewrite (since_app h _ _ Hh). simpl. fold payload.
  destruct Hr as [-> | ->]; auto.
Qed.

(** X8 where the first send fails and the retry succeeds: two entries, one
    payload, sent twice. *)
Lemma flush_sends_whole_backlog_witness :
  sendalls (since (connected_handler 0%nat ["a"; "b"])
              (snd (_send flaky (connected_handler 0%nat ["a"; "b"]))))
  = ["ab"; "ab"].
Proof.
  destruct (flush_sends_whole_backlog flaky
              (connected_handler 0%nat ["a"; "b"]) 0%nat eq_refl)
    as [_ [H|H]].
  - exfalso. vm_compute in H. discriminate H.
  - exact H.
Defined.

(** X9.  A flush with nothing queued is not a no-op: a connected handler
    still calls [sendall], with the empty string, before anything else, and
    the backlog stays empty. *)
Theorem empty_flush_still_sends (w : world) (h : handler) (sk : sock) :
  socket h = Some sk ->
  metrics h = [] ->
  (exists rest,
     history (snd (_send w h)) = history h ++ EvSendall sk "" :: rest) /\
  metrics (snd (_send w h)) = [].
Proof.
  intros Hs Hm. split.
  - destruct (_send_events w h sk Hs) as (rest & Hh & _).
    rewrite Hm in Hh. now exists rest.
  - destruct (_send_suffix w h) as [d Hd]. rewrite Hm in Hd.
    symmetry in Hd. now apply app_eq_nil in Hd.
Qed.

(** X9 on a reachable server. *)
Lemma empty_flush_still_sends_witness :
  exists rest,
    history (snd (_send up (connected_handler 0%nat []))) =
    history (connected_handler 0%nat []) ++ EvSendall 0%nat "" :: rest.
Proof.
  exact (proj1 (empty_flush_still_sends up (connected_handler 0%nat [])
                  0%nat eq_refl eq_refl)).
Defined.

(* ===================================================================== *)
(** ** Outage and healthy link                                            *)
(* ===================================================================== *)

(** During an outage a connect attempt returns and leaves no socket. *)
Lemma _connect_down w h :
  down w -> fst (_connect w h) = Ok tt /\ socket (snd (_connect w h)) = None.
Proof.
  intros (Hsock & [Hopt Htime] & Hconn).
  destruct (Hsock (history h) (stream_of h)) as [s Hs].
  destruct (_connect_absorbs w Hopt Htime h s Hs) as (Hf & _ & Hn).
  split; [exact Hf | exact (Hn Hconn)].
Qed.

Lemma _send_down w h :
  down w -> socket h = None ->
  fst (_send w h) = Ok tt /\
  socket (snd (_send w h)) = None /\
  no_send h (snd (_send w h)).
Proof.
  intros Hdown Hs.
  pose proof (inner_cases w h) as Hin. simpl in Hin.
  pose proof (reconnect_no_send w h) as Hq.
  rewrite (reconnect_if_needed_none w h Hs) in Hin, Hq.
  destruct (_connect_down w
              (record (EvLog DEBUG
                 "SensuHandler: Socket is not connected. Reconnecting." []) h)
              Hdown) as [Hf Hn].
  destruct (_connect w _) as [[[]|e] h1]; simpl in Hf, Hn, Hq;
    [|discriminate Hf].
  rewrite Hn in Hin. rewrite _send_eq, Hin. simpl.
  split; [reflexivity|]. split; [now rewrite trim_backlog_socket|].
  eapply no_send_trans; [exact Hq|].
  eapply no_send_trans; [|apply trim_backlog_no_send].
  now apply no_send_record.
Qed.

Lemma process_all_down json_dumps w ms :
  down w -> well_formed ms ->
  forall h, socket h = None ->
    fst (process_all json_dumps w ms h) = Ok tt /\
    socket (snd (process_all json_dumps w ms h)) = None /\
    no_send h (snd (process_all json_dumps w ms h)).
Proof.
  intros Hdown. induction 1 as [|m ms Hm Hms IH]; intros h Hs.
  - simpl. split; [reflexivity|]. split; [exact Hs|].
    now apply no_send_same_history.
  - simpl. unfold bind.
    assert (Hp : fst (process json_dumps w m h) = Ok tt /\
                 socket (snd (process json_dumps w m h)) = None /\
                 no_send h (snd (process json_dumps w m h))).
    { rewrite (process_eq json_dumps w m h Hm).
      destruct (_ >=? _).
      - destruct (_send_down w
                    (set_metrics (metrics h ++ [entry_of json_dumps m]) h)
                    Hdown Hs) as (H1 & H2 & H3). auto.
      - simpl. split; [reflexivity|]. split; [exact Hs|].
        now apply no_send_same_history. }
    destruct (process json_dumps w m h) as [[[]|e] h1]; simpl in Hp;
      destruct Hp as (Hf & Hs1 & Hn1); [|discriminate Hf].
    destruct (IH h1 Hs1) as (H1 & H2 & H3).
    split; [exact H1|]. split; [exact H2|].
    eapply no_send_trans; eassumption.
Qed.

(** X10.  An outage never reaches the producer.  In a world where sockets
    can be created and tuned but every [connect] raises, any run of
    [process] calls on well-formed metrics, started without a socket,
    returns normally; nothing is sent and the handler stays disconnected. *)
Theorem outage_never_raises
    (json_dumps : list (string * string) -> string)
    (w : world) (ms : list string) (h : handler) :
  down w -> well_formed ms -> socket h = None ->
  let out := process_all json_dumps w ms h in
  fst out = Ok tt /\
  socket (snd out) = None /\
  sendalls (since h (snd out)) = [].
Proof.
  intros Hdown Hwf Hs out.
  destruct (process_all_down json_dumps w ms Hdown Hwf h Hs) as (H1 & H2 & H3).
  split; [exact H1|]. split; [exact H2|]. now apply no_send_since.
Qed.

Lemma unreachable_down : down unreachable.
Proof.
  split; [|split; [split|]]; simpl; intros; eauto.
Qed.

Lemma ten_metrics_well_formed : well_formed ten_metrics.
Proof. unfold well_formed, ten_metrics. repeat constructor. Qed.

(** X10 on ten metrics while the server refuses connections. *)
Lemma outage_never_raises_witness :
  fst (process_all sample_dumps unreachable ten_metrics pairs_handler) = Ok tt.
Proof.
  exact (proj1 (outage_never_raises sample_dumps unreachable ten_metrics
                  pairs_handler unreachable_down ten_metrics_well_formed
                  eq_refl)).
Defined.

Lemma append_assoc (a b c : string) :
  String.append (String.append a b) c = String.append a (String.append b c).
Proof.
  induction a as [|x a IH]; [reflexivity|].
  change (String x (String.append (String.append a b) c) =
          String x (String.append a (String.append b c))).
  now f_equal.
Qed.

Lemma append_empty_r (a : string) : String.append a "" = a.
Proof.
  induction a as [|x a IH]; [reflexivity|].
  change (String x (String.append a "") = String x a). now f_equal.
Qed.

Lemma join_app (a b : list string) :
  join (a ++ b) = String.append (join a) (join b).
Proof.
  induction a as [|x a IH]; simpl; [reflexivity|].
  now rewrite IH, append_assoc.
Qed.

Lemma sent_trans a b h1 h2 h3 :
  sent a h1 h2 -> sent b h2 h3 -> sent (a ++ b) h1 h3.
Proof.
  intros (e1 & H1 & S1) (e2 & H2 & S2). exists (e1 ++ e2).
  rewrite H2, H1, app_assoc, sendalls_app, S1, S2. auto.
Qed.

(** On a healthy link a flush of a connected handler returns, empties the
    backlog, keeps the socket and sends the backlog once. *)
Lemma _send_accepted w h sk :
  accepts w -> socket h = Some sk ->
  fst (_send w h) = Ok tt /\
  socket (snd (_send w h)) = Some sk /\
  metrics (snd (_send w h)) = [] /\
  sent [join (metrics h)] h (snd (_send w h)).
Proof.
  intros Hacc Hs.
  pose proof (inner_cases w h) as Hin. simpl in Hin.
  rewrite (reconnect_if_needed_some w h sk Hs), Hs in Hin.
  assert (Esd : _send_data w (join (metrics h)) h =
                (Ok tt, record (EvSendall sk (join (metrics h))) h)).
  { unfold _send_data, try_except.
    now rewrite (sendall_some w _ h sk Hs), Hacc. }
  rewrite Esd in Hin. rewrite _send_eq, Hin. simpl.
  split; [reflexivity|].
  split; [now rewrite trim_backlog_socket|].
  split; [rewrite trim_backlog_metrics; apply trimmed_nil|].
  change [join (metrics h)] with ([join (metrics h)] ++ []).
  eapply sent_trans; [|apply trim_backlog_no_send].
  eexists. split; reflexivity.
Qed.

Lemma process_all_accepted json_dumps w sk ms :
  accepts w -> well_formed ms ->
  forall h, socket h = Some sk ->
  exists batches,
    fst (process_all json_dumps w ms h) = Ok tt /\
    socket (snd (process_all json_dumps w ms h)) = Some sk /\
    sent batches h (snd (process_all json_dumps w ms h)) /\
    String.append (join batches)
      (join (metrics (snd (process_all json_dumps w ms h)))) =
    join (metrics h ++ map (entry_of json_dumps) ms).
Proof.
  intros Hacc. induction 1 as [|m ms Hm Hms IH]; intros h Hs.
  - exists []. simpl. rewrite app_nil_r.
    split; [reflexivity|]. split; [exact Hs|]. split; [|reflexivity].
    exists []. now rewrite app_nil_r.
  - simpl process_all. unfold bind.
    assert (Hp : exists b1,
      fst (process json_dumps w m h) = Ok tt /\
      socket (snd (process json_dumps w m h)) = Some sk /\
      sent b1 h (snd (process json_dumps w m h)) /\
      String.append (join b1) (join (metrics (snd (process json_dumps w m h))))
      = join (metrics h ++ [entry_of json_dumps m])).
    { rewrite (process_eq json_dumps w m h Hm).
      destruct (_ >=? _).
      - destruct (_send_accepted w
                    (set_metrics (metrics h ++ [entry_of json_dumps m]) h) sk
                    Hacc Hs) as (H1 & H2 & H3 & H4).
        exists [join (metrics h ++ [entry_of json_dumps m])].
        split; [exact H1|]. split; [exact H2|]. split; [exact H4|].
        rewrite H3. simpl. now rewrite !append_empty_r.
      - exists []. simpl. split; [reflexivity|]. split; [exact Hs|].
        split; [|reflexivity]. exists []. now rewrite app_nil_r. }
    destruct Hp as (b1 & Hf & Hs1 & Hsent1 & Hj1).
    destruct (process json_dumps w m h) as [[[]|e] h1]; cbn [fst snd] in *;
      [|discriminate Hf].
    destruct (IH h1 Hs1) as (b2 & H1 & H2 & H3 & H4).
    exists (b1 ++ b2).
    split; [exact H1|]. split; [exact H2|].
    split; [eapply sent_trans; eassumption|].
    rewrite (join_app b1 b2), append_assoc, H4.
    rewrite (join_app (metrics h1)), <- append_assoc, Hj1.
    rewrite <- join_app, <- app_assoc. reflexivity.
Qed.

(** X11.  On a healthy link nothing is lost, duplicated or reordered.  In a
    world where every [sendall] returns, any run of [process] calls on
    well-formed metrics by a connected handler returns, keeps the socket,
    and the payloads sent, followed by the entries still queued, are
    exactly the entries that were queued at the start followed by the
    entries produced, byte for byte and in order -- whatever the batch size
    and the multipliers. *)
Theorem healthy_link_delivers_in_order
    (json_dumps : list (string * string) -> string)
    (w : world) (ms : list string) (h : handler) (sk : sock) :
  accepts w -> well_formed ms -> socket h = Some sk ->
  let out := process_all json_dumps w ms h in
  fst out = Ok tt /\
  socket (snd out) = Some sk /\
  String.append (join (sendalls (since h (snd out)))) (join (metrics (snd out)))
  = join (metrics h ++ map (entry_of json_dumps) ms).
Proof.
  intros Hacc Hwf Hs out.
  destruct (process_all_accepted json_dumps w sk ms Hacc Hwf h Hs)
    as (b & H1 & H2 & (evs & Hh & Hb) & H4).
  split; [exact H1|]. split; [exact H2|].
  unfold out. rewrite (since_app h _ evs Hh), Hb. exact H4.
Qed.

(** X11 on ten metrics, batches of three: three payloads go out and one
    entry waits. *)
Lemma healthy_link_delivers_in_order_witness :
  String.append
    (join (sendalls (since batching_handler
             (snd (process_all sample_dumps up ten_metrics batching_handler)))))
    (join (metrics (snd (process_all sample_dumps up ten_metrics
                           batching_handler))))
  = join (map (entry_of sample_dumps) ten_metrics).
Proof.
  assert (Hacc : accepts up) by (intros hist sk data; reflexivity).
  exact (proj2 (proj2 (healthy_link_delivers_in_order sample_dumps up
                  ten_metrics batching_handler 0%nat Hacc
                  ten_metrics_well_formed eq_refl))).
Defined.

(* ===================================================================== *)
(** ** What [_connect] asks of the socket                                 *)
(* ===================================================================== *)

Lemma setsockopts_app e1 e2 :
  setsockopts (e1 ++ e2) = setsockopts e1 ++ setsockopts e2.
Proof.
  induction e1 as [|ev e1 IH]; [reflexivity|].
  destruct ev; simpl; rewrite ?IH; reflexivity.
Qed.

Lemma settimeout_some w t h sk :
  socket h = Some sk ->
  settimeout w t h =
  (sock_settimeout w (history h) sk t, record (EvSettimeout sk t) h).
Proof.
  intros Hs. unfold settimeout. now rewrite (on_socket_some _ h sk Hs).
Qed.

(** Lines 179-191 on a handler holding socket [sk]: [connect] is called
    first; what follows is a log line, and a close when it raised. *)
Lemma guarded_connect_history w hst prt h sk :
  socket h = Some sk ->
  exists rest,
    history (snd (try_except
      (run connect w hst prt;
       log DEBUG "SensuHandler: Established connection to sensu server %s:%d."
           [AVal hst; AInt prt])
      (fun ex =>
         run log ERROR "SensuHandler: Failed to connect to %s:%i. %s."
                 [AVal hst; AInt prt; AExn ex];
         _close) h)) = history h ++ EvConnect sk hst prt :: rest /\
    setsockopts rest = [].
Proof.
  intros Hs.
  assert (E : connect w hst prt h =
              (sock_connect w (history h) sk hst prt,
               record (EvConnect sk hst prt) h)).
  { unfold connect. now rewrite (on_socket_some _ h sk Hs). }
  unfold try_except, bind, log, modify. rewrite E.
  destruct (sock_connect w (history h) sk hst prt) as [[]|e]; simpl.
  - eexists. rewrite <- app_assoc. split; reflexivity.
  - rewrite _close_eq. simpl. rewrite Hs. simpl.
    eexists. rewrite <- !app_assoc. split; reflexivity.
Qed.

(** Lines 176-191: timeout, then the guarded connect. *)
Lemma timeout_and_connect_history w (k : M unit) h sk :
  socket h = Some sk ->
  k = (do t <- get timeout;
       run settimeout w t;
       do hst <- get host;
       do prt <- get port;
       try_except
         (run connect w hst prt;
          log DEBUG "SensuHandler: Established connection to sensu server %s:%d."
              [AVal hst; AInt prt])
         (fun ex =>
            run log ERROR "SensuHandler: Failed to connect to %s:%i. %s."
                    [AVal hst; AInt prt; AExn ex];
            _close)) ->
  exists rest,
    history (snd (k h)) = history h ++ EvSettimeout sk (timeout h) :: rest /\
    setsockopts rest = [] /\
    (sock_settimeout w (history h) sk (timeout h) = Ok tt ->
     exists rest',
       rest = EvConnect sk (host h) (port h) :: rest').
Proof.
  intros Hs ->.
  erewrite bind_ok by reflexivity.
  unfold bind at 1. rewrite (settimeout_some w (timeout h) h sk Hs).
  destruct (sock_settimeout w (history h) sk (timeout h)) as [[]|e].
  - do 2 (erewrite bind_ok by reflexivity).
    destruct (guarded_connect_history w
                (host (record (EvSettimeout sk (timeout h)) h))
                (port (record (EvSettimeout sk (timeout h)) h))
                (record (EvSettimeout sk (timeout h)) h) sk Hs)
      as (rest & Hh & Hr).
    eexists. split; [|split].
    + rewrite Hh. simpl. rewrite <- app_assoc. reflexivity.
    + simpl. exact Hr.
    + intros _. eexists. reflexivity.
  - exists []. simpl. split; [reflexivity|]. split; [reflexivity|].
    discriminate.
Qed.

(** X12.  Keepalive probes are configured only where they apply.  With
    proto udp, or with keepalive off, [_connect] never calls [setsockopt],
    in any world.  On a stream socket with keepalive on, and where setting
    options and the timeout returns, the calls made on the new socket are,
    in this order: SO_KEEPALIVE 1, TCP_KEEPIDLE and TCP_KEEPINTVL at
    [keepaliveinterval], TCP_KEEPCNT 3, then the timeout, then [connect] to
    the configured host and port. *)
Theorem keepalive_only_on_streams (w : world) (h : handler) :
  ((String.eqb (proto h) "udp" = true \/ keepalive h = false) ->
   setsockopts (since h (snd (_connect w h))) = []) /\
  (forall sk,
     tunable w ->
     String.eqb (proto h) "udp" = false -> keepalive h = true ->
     socket_socket w (history h) (stream_of h) = Ok (Some sk) ->
     exists rest,
       since h (snd (_connect w h)) =
       [EvSocket SOCK_STREAM;
        EvLog ERROR "SensuHandler: Setting socket keepalives..." [];
        EvSetsockopt sk "SOL_SOCKET" "SO_KEEPALIVE" 1;
        EvSetsockopt sk "IPPROTO_TCP" "TCP_KEEPIDLE" (keepaliveinterval h);
        EvSetsockopt sk "IPPROTO_TCP" "TCP_KEEPINTVL" (keepaliveinterval h);
        EvSetsockopt sk "IPPROTO_TCP" "TCP_KEEPCNT" 3;
        EvSettimeout sk (timeout h);
        EvConnect sk (host h) (port h)] ++ rest /\
       setsockopts rest = []).
Proof.
  split.
  - intros Hoff.
    assert (Hc : (negb (proto h =? "udp")%string && keepalive h)%bool = false).
    { destruct Hoff as [-> | ->]; [reflexivity | apply andb_false_r]. }
    unfold _connect.
    erewrite bind_ok by reflexivity.
    unfold bind at 1, call.
    destruct (socket_socket w (history h) (stream_of h)) as [s|e].
    2: { erewrite since_app by reflexivity. reflexivity. }
    erewrite bind_ok by reflexivity.
    set (h0 := set_socket s (record (EvSocket (stream_of h)) h)).
    unfold configure_and_connect.
    erewrite bind_ok by reflexivity.
    change (socket h0) with s.
    destruct s as [sk|].
    2: { erewrite bind_ok by reflexivity. rewrite _close_eq. subst h0.
         erewrite since_app by (simpl; rewrite <- app_assoc; reflexivity).
         reflexivity. }
    do 3 (erewrite bind_ok by reflexivity).
    change (proto h0) with (proto h). change (keepalive h0) with (keepalive h).
    rewrite Hc.
    erewrite bind_ok by reflexivity.
    destruct (timeout_and_connect_history w _ h0 sk eq_refl eq_refl)
      as (rest & Hh & Hr & _).
    subst h0.
    erewrite since_app
      by (rewrite Hh; simpl; rewrite <- app_assoc; reflexivity).
    simpl. exact Hr.
  - intros sk [Hopt Htime] Hp Hka Hsock.
    assert (Hc : (negb (proto h =? "udp")%string && keepalive h)%bool = true)
      by now rewrite Hp, Hka.
    assert (Hstream : stream_of h = SOCK_STREAM)
      by (unfold stream_of; now rewrite Hp).
    remember (snd (_connect w h)) as out eqn:Eout.
    unfold _connect in Eout.
    erewrite bind_ok in Eout by reflexivity.
    erewrite bind_ok in Eout by (unfold call; rewrite Hsock; reflexivity).
    erewrite bind_ok in Eout by reflexivity.
    set (h0 := set_socket (Some sk) (record (EvSocket (stream_of h)) h)) in Eout.
    unfold configure_and_connect in Eout.
    erewrite bind_ok in Eout by reflexivity.
    change (socket h0) with (Some sk) in Eout. cbv beta iota in Eout.
    do 3 (erewrite bind_ok in Eout by reflexivity).
    change (proto h0) with (proto h) in Eout.
    change (keepalive h0) with (keepalive h) in Eout.
    rewrite Hc in Eout.
    assert (Eka : set_keepalives w (keepaliveinterval h0) h0 =
      (Ok tt,
       record (EvSetsockopt sk "IPPROTO_TCP" "TCP_KEEPCNT" 3)
         (record (EvSetsockopt sk "IPPROTO_TCP" "TCP_KEEPINTVL"
                    (keepaliveinterval h))
            (record (EvSetsockopt sk "IPPROTO_TCP" "TCP_KEEPIDLE"
                       (keepaliveinterval h))
               (record (EvSetsockopt sk "SOL_SOCKET" "SO_KEEPALIVE" 1)
                  (record (EvLog ERROR
                             "SensuHandler: Setting socket keepalives..." [])
                     h0)))))).
    { unfold set_keepalives.
      erewrite bind_ok by reflexivity.
      erewrite bind_ok by (apply (setsockopt_returns w Hopt); reflexivity).
      erewrite bind_ok by (apply (setsockopt_returns w Hopt); reflexivity).
      erewrite bind_ok by (apply (setsockopt_returns w Hopt); reflexivity).
      apply (setsockopt_returns w Hopt). reflexivity. }
    erewrite bind_ok in Eout by exact Eka.
    match type of Eout with
    | _ = snd (?k ?st) =>
        destruct (timeout_and_connect_history w k st sk eq_refl eq_refl)
          as (rest & Hh & Hr & Hnext)
    end.
    destruct (Hnext (Htime _ _ _)) as [rest' ->].
    exists rest'. split.
    + apply since_app. rewrite Eout, Hh. subst h0. simpl. rewrite Hstream.
      rewrite <- !app_assoc. reflexivity.
    + exact Hr.
Qed.

(* ===================================================================== *)
(** ** Construction and defaults                                          *)
(* ===================================================================== *)

Lemma config_get_missing config key :
  config !! key = None -> config_get config key = Raise (KeyError key).
Proof. intros H. unfold config_get. now rewrite H. Qed.

Lemma read_options_missing int_of_str config key :
  In key read_keys ->
  config !! key = None ->
  exists e, read_options int_of_str config = Raise e.
Proof.
  intros Hin Hcfg.
  pose proof (config_get_missing config key Hcfg) as Hbad.
  unfold read_keys in Hin. simpl in Hin.
  repeat match goal with
  | H : _ \/ _ |- _ => destruct H as [H|H]
  end; try contradiction; subst key; unfold read_options;
  repeat match goal with
  | |- exists e, rbind ?r ?k = Raise e =>
      first
        [ (eexists; apply rbind_raise; exact Hbad)
        | (eexists; apply rbind_raise; apply rbind_raise; exact Hbad)
        | let a := fresh "a" in
          let e0 := fresh "e" in
          destruct r as [a|e0]; [simpl | (exists e0; reflexivity)] ]
  end.
Qed.

(** X13.  Every option is mandatory at construction: when any of the nine
    keys [__init__] reads is absent from the configuration, construction
    raises before any call on the socket library or the logger; a missing
    proto raises KeyError on that key, and a proto that is a number rather
    than text raises AttributeError. *)
Theorem construction_needs_every_option
    (int_of_str : string -> option Z) (w : world)
    (config : gmap string value) :
  (forall key,
     In key read_keys -> config !! key = None ->
     exists e, __init__ int_of_str w config = (Raise e, [])) /\
  (config !! "proto" = None ->
   __init__ int_of_str w config = (Raise (KeyError "proto"), [])) /\
  (forall z,
     config !! "proto" = Some (VInt z) ->
     __init__ int_of_str w config = (Raise AttributeError, [])).
Proof.
  split; [|split].
  - intros key Hin Hcfg.
    destruct (read_options_missing int_of_str config key Hin Hcfg) as [e He].
    exists e. now apply __init___rejected.
  - intros Hp. apply __init___rejected.
    unfold read_options, config_get. now rewrite Hp.
  - intros z Hp. apply __init___rejected.
    unfold read_options, config_get. now rewrite Hp.
Qed.

Lemma read_options_fresh int_of_str config h0 :
  read_options int_of_str config = Ok h0 ->
  socket h0 = None /\ metrics h0 = [] /\ history h0 = [] /\
  (forall p, config !! "proto" = Some (VStr p) -> proto h0 = strip (lower p)).
Proof.
  unfold read_options. intros E.
  repeat match type of E with
  | rbind ?r _ = Ok _ =>
      let a := fresh "a" in
      destruct r as [a|?] eqn:?; [simpl in E | discriminate E]
  end.
  inversion E; subst h0; simpl.
  split; [reflexivity|]. split; [reflexivity|]. split; [reflexivity|].
  intros p Hp.
  match goal with
  | H : rbind (config_get config "proto") lower_strip = Ok _ |- _ =>
      unfold config_get in H; rewrite Hp in H; simpl in H;
      now inversion H
  end.
Qed.

(** X14.  An unreachable server does not prevent construction.  During an
    outage, a configuration whose options convert yields a handler: it holds
    no socket, its backlog is empty and its options are the converted
    ones; the failure shows only in the log. *)
Theorem construction_survives_outage
    (int_of_str : string -> option Z) (w : world)
    (config : gmap string value) (h0 : handler) :
  down w ->
  read_options int_of_str config = Ok h0 ->
  exists h,
    __init__ int_of_str w config = (Ok h, history h) /\
    socket h = None /\
    metrics h = [] /\
    same_options h0 h.
Proof.
  intros Hdown Hread.
  destruct (_connect_down w h0 Hdown) as [Hf Hs].
  destruct (read_options_fresh int_of_str config h0 Hread) as (_ & Hm & _).
  pose proof (_connect_same_backlog w h0) as Hb.
  pose proof (_connect_same_options w h0) as Ho.
  exists (snd (_connect w h0)).
  unfold __init__. rewrite Hread.
  destruct (_connect w h0) as [[[]|e] h]; simpl in *; [|discriminate Hf].
  split; [reflexivity|]. split; [exact Hs|]. split; [congruence | exact Ho].
Qed.

(** X14 with the default configuration and a server that refuses
    connections. *)
Lemma construction_survives_outage_witness :
  exists h,
    __init__ no_literal unreachable default_config = (Ok h, history h) /\
    socket h = None.
Proof.
  assert (Hread : read_options no_literal default_config
                  = Ok (default_handler [])) by (vm_compute; reflexivity).
  destruct (construction_survives_outage no_literal unreachable default_config
              (default_handler []) unreachable_down Hread)
    as (h & H1 & H2 & _).
  exists h. split; assumption.
Defined.

(** X15.  The socket type follows the normalised proto.  Construction asks
    for exactly one socket: a datagram socket when the configured proto,
    lowercased and stripped of surrounding whitespace, is "udp", and a
    stream socket for any other text, misspellings included. *)
Theorem socket_type_follows_proto
    (int_of_str : string -> option Z) (w : world)
    (config : gmap string value) (h0 : handler) (p : string) :
  read_options int_of_str config = Ok h0 ->
  config !! "proto" = Some (VStr p) ->
  socket_calls (snd (__init__ int_of_str w config)) =
  [if String.eqb (strip (lower p)) "udp" then SOCK_DGRAM else SOCK_STREAM].
Proof.
  intros Hread Hp.
  destruct (read_options_fresh int_of_str config h0 Hread)
    as (_ & _ & Hh & Hproto).
  destruct (_connect_history w h0) as (evs & Hhist & _ & Hsock).
  assert (E : snd (__init__ int_of_str w config) =
              history (snd (_connect w h0))).
  { unfold __init__. rewrite Hread.
    now destruct (_connect w h0) as [[[]|e] h]. }
  rewrite E, Hhist, Hh. simpl. rewrite Hsock.
  unfold stream_of. now rewrite (Hproto p Hp).
Qed.

(** X15 with proto " UDP ": upper case and padded, still a datagram
    socket. *)
Lemma socket_type_follows_proto_witness :
  socket_calls (snd (__init__ no_literal up
                       (<["proto" := VStr " UDP "]> default_config)))
  = [SOCK_DGRAM].
Proof.
  assert (Hread : exists h0,
            read_options no_literal (<["proto" := VStr " UDP "]> default_config)
            = Ok h0) by (eexists; vm_compute; reflexivity).
  destruct Hread as [h0 Hread].
  assert (Hp : (<["proto" := VStr " UDP "]> default_config) !! "proto"
               = Some (VStr " UDP ")) by (vm_compute; reflexivity).
  exact (socket_type_follows_proto no_literal up _ h0 " UDP " Hread Hp).
Defined.

Lemma update_lookup {V} (d new : gmap string V) key v :
  new !! key = Some v -> update d new !! key = Some v.
Proof. intros H. unfold update. now apply lookup_union_Some_l. Qed.

(** X16.  The defaults always construct.  Whatever the base class puts in
    the default configuration, the nine values of [get_default_config]
    replace it for their keys, so every option [__init__] reads is present;
    reading the options from it gives a handler with proto tcp, host
    localhost, port 2003, timeout 15, keepalive off, batch 1 and
    multipliers 5 and 4, which respects the configuration invariant. *)
Theorem defaults_construct
    (int_of_str : string -> option Z) (base : gmap string value) :
  (forall key, In key read_keys ->
     is_Some (get_default_config base !! key)) /\
  read_options int_of_str (get_default_config base) = Ok (default_handler []) /\
  config_ok (default_handler []).
Proof.
  assert (L : forall key v,
            (list_to_map
               [("host", VStr "localhost"); ("port", VInt 2003);
                ("proto", VStr "tcp"); ("timeout", VInt 15); ("batch", VInt 1);
                ("max_backlog_multiplier", VInt 5);
                ("trim_backlog_multiplier", VInt 4);
                ("keepalive", VInt 0); ("keepaliveinterval", VInt 10)]
             : gmap string value) !! key = Some v ->
            get_default_config base !! key = Some v).
  { intros key v H. unfold get_default_config. now apply update_lookup. }
  split; [|split].
  - intros key Hin. unfold read_keys in Hin. simpl in Hin.
    repeat match goal with
    | H : _ \/ _ |- _ => destruct H as [H|H]
    end; try contradiction; subst key;
      eexists; apply L; vm_compute; reflexivity.
  - unfold read_options, config_get.
    rewrite (L "proto" (VStr "tcp")) by (vm_compute; reflexivity).
    rewrite (L "host" (VStr "localhost")) by (vm_compute; reflexivity).
    rewrite (L "port" (VInt 2003)) by (vm_compute; reflexivity).
    rewrite (L "timeout" (VInt 15)) by (vm_compute; reflexivity).
    rewrite (L "keepalive" (VInt 0)) by (vm_compute; reflexivity).
    rewrite (L "keepaliveinterval" (VInt 10)) by (vm_compute; reflexivity).
    rewrite (L "batch" (VInt 1)) by (vm_compute; reflexivity).
    rewrite (L "max_backlog_multiplier" (VInt 5)) by (vm_compute; reflexivity).
    rewrite (L "trim_backlog_multiplier" (VInt 4)) by (vm_compute; reflexivity).
    reflexivity.
  - unfold config_ok. simpl. lia.
Qed.

(** X17.  Every default is documented and nothing else is: when the base
    class documents exactly the options it gives defaults for, so does the
    handler -- [get_default_config_help] and [get_default_config] add the
    same nine keys. *)
Theorem defaults_are_documented
    (base_help : gmap string string) (base : gmap string value) :
  dom base_help = dom base ->
  dom (get_default_config_help base_help) = dom (get_default_config base).
Proof.
  intros Hdom. unfold get_default_config_help, get_default_config, update.
  rewrite !dom_union_L, Hdom.
  f_equal; rewrite !dom_list_to_map_L; reflexivity.
Qed.

(** X17 with nothing inherited. *)
Lemma defaults_are_documented_witness :
  dom (get_default_config_help ∅) = dom (get_default_config ∅).
Proof.
  apply defaults_are_documented. now rewrite !dom_empty_L.
Defined.

Lemma process_same_options json_dumps w m h :
  same_options h (snd (process json_dumps w m h)).
Proof.
  destruct (Nat.lt_ge_cases (length (split m)) 3) as [Hshort|Hwf].
  - rewrite process_raise_unchanged by exact Hshort. apply same_options_refl.
  - rewrite (process_eq json_dumps w m h Hwf).
    destruct (_ >=? _).
    + eapply same_options_trans; [|apply _send_same_options].
      unfold same_options. simpl. tauto.
    + unfold same_options. simpl. tauto.
Qed.

(** X18.  The options are fixed at construction: no run of [process] calls
    and no flush, in any world and on any metrics, changes the protocol,
    host, port, timeout, keepalive settings, batch size or multipliers; in
    particular a handler that respects the configuration invariant keeps
    respecting it. *)
Theorem options_never_change
    (json_dumps : list (string * string) -> string)
    (w : world) (ms : list string) (h : handler) :
  same_options h (snd (flush w h)) /\
  same_options h (snd (process_all json_dumps w ms h)) /\
  (config_ok h -> config_ok (snd (process_all json_dumps w ms h))).
Proof.
  assert (H : same_options h (snd (process_all json_dumps w ms h))).
  { revert h. induction ms as [|m ms IH]; intros h; simpl.
    - apply same_options_refl.
    - unfold bind.
      pose proof (process_same_options json_dumps w m h) as Hp.
      destruct (process json_dumps w m h) as [[[]|e] h1]; simpl in *.
      + eapply same_options_trans; [exact Hp | apply IH].
      + exact Hp. }
  split; [apply _send_same_options|]. split; [exact H|].
  apply (same_options_ceiling h _ H).
Qed.

(* ===================================================================== *)
(** ** Recovery and explicit flush                                        *)
(* ===================================================================== *)

(** X19.  A transient failure is repaired inside one flush.  When the send
    fails on the connected socket, the reconnect gives a new socket and the
    retransmit is accepted, the flush returns normally with an empty
    backlog and holds the new socket; the old socket was closed right after
    the failed send, and the payload went out exactly twice. *)
Theorem transient_failure_recovers (w : world) (h h2 : handler)
    (sk sk' : sock) (e : exn) :
  socket h = Some sk ->
  sock_sendall w (history h) sk (join (metrics h)) = Raise e ->
  _connect w (after_failed_send sk (join (metrics h)) h) = (Ok tt, h2) ->
  socket h2 = Some sk' ->
  sock_sendall w (history h2) sk' (join (metrics h)) = Ok tt ->
  let out := _send w h in
  fst out = Ok tt /\
  metrics (snd out) = [] /\
  socket (snd out) = Some sk' /\
  (exists rest,
     history (snd out) =
     history h ++ EvSendall sk (join (metrics h)) :: EvClose sk :: rest) /\
  sendalls (since h (snd out)) = [join (metrics h); join (metrics h)].
Proof.
  intros Hs Hfail Hc Hs2 Hok out.
  assert (Esd : _send_data w (join (metrics h)) h =
                (Ok tt, record (EvSendall sk' (join (metrics h))) h2)).
  { rewrite (_send_data_retry w _ h sk e Hs Hfail). unfold bind.
    rewrite Hc. now rewrite (sendall_some w _ h2 sk' Hs2), Hok. }
  pose proof (inner_cases w h) as Hin. simpl in Hin.
  rewrite (reconnect_if_needed_some w h sk Hs), Hs, Esd in Hin.
  assert (Eout : out =
    (Ok tt, snd (trim_backlog
                   (set_metrics [] (record (EvSendall sk' (join (metrics h))) h2)))))
    by (unfold out; now rewrite _send_eq, Hin).
  destruct (_connect_history w (after_failed_send sk (join (metrics h)) h))
    as (evs & Hh & Hsend & _).
  rewrite Hc in Hh. simpl in Hh.
  destruct (trim_backlog_no_send
              (set_metrics [] (record (EvSendall sk' (join (metrics h))) h2)))
    as (tl & Htl & Hstl).
  assert (Hhist : history (snd out) =
    history h ++ EvSendall sk (join (metrics h)) :: EvClose sk ::
      (EvLog ERROR "SensuHandler: Socket error, trying reconnect." []
       :: EvSocket (stream_of (after_failed_send sk (join (metrics h)) h))
       :: evs ++ [EvSendall sk' (join (metrics h))] ++ tl)).
  { rewrite Eout. simpl snd. rewrite Htl. simpl. rewrite Hh.
    rewrite <- !app_assoc. reflexivity. }
  rewrite Eout at 1 2 3. simpl fst. simpl snd.
  split; [reflexivity|].
  split; [rewrite trim_backlog_metrics; apply trimmed_nil|].
  split; [rewrite trim_backlog_socket; exact Hs2|].
  split; [eexists; exact Hhist|].
  rewrite (since_app h _ _ Hhist). simpl.
  rewrite sendalls_app, Hsend. simpl. now rewrite Hstl.
Qed.

(** X19 where only the first send fails. *)
Lemma transient_failure_recovers_witness :
  fst (_send flaky (connected_handler 0%nat ["m"])) = Ok tt /\
  metrics (snd (_send flaky (connected_handler 0%nat ["m"]))) = [] /\
  socket (snd (_send flaky (connected_handler 0%nat ["m"]))) = Some 3%nat.
Proof.
  assert (Hc : _connect flaky
                 (after_failed_send 0%nat
                    (join (metrics (connected_handler 0%nat ["m"])))
                    (connected_handler 0%nat ["m"]))
               = (Ok tt,
                  snd (_connect flaky
                         (after_failed_send 0%nat
                            (join (metrics (connected_handler 0%nat ["m"])))
                            (connected_handler 0%nat ["m"])))))
    by (vm_compute; reflexivity).
  assert (Hs2 : socket (snd (_connect flaky
                         (after_failed_send 0%nat
                            (join (metrics (connected_handler 0%nat ["m"])))
                            (connected_handler 0%nat ["m"])))) = Some 3%nat)
    by (vm_compute; reflexivity).
  assert (Hok : sock_sendall flaky
                  (history (snd (_connect flaky
                         (after_failed_send 0%nat
                            (join (metrics (connected_handler 0%nat ["m"])))
                            (connected_handler 0%nat ["m"])))))
                  3%nat (join (metrics (connected_handler 0%nat ["m"])))
                = Ok tt)
    by (vm_compute; reflexivity).
  destruct (transient_failure_recovers flaky (connected_handler 0%nat ["m"])
              _ 0%nat 3%nat (SocketError 32) eq_refl eq_refl Hc Hs2 Hok)
    as (H1 & H2 & H3 & _).
  repeat split; assumption.
Defined.

(** X20.  On a healthy link an explicit flush after a run of [process]
    calls delivers what was left: starting connected with an empty backlog,
    after the run and the flush nothing is queued and the payloads sent,
    put end to end, are exactly the entries produced, each once and in
    order. *)
Theorem flush_delivers_the_rest
    (json_dumps : list (string * string) -> string)
    (w : world) (ms : list string) (h : handler) (sk : sock) :
  accepts w -> well_formed ms -> socket h = Some sk -> metrics h = [] ->
  let out := flush w (snd (process_all json_dumps w ms h)) in
  fst out = Ok tt /\
  metrics (snd out) = [] /\
  join (sendalls (since h (snd out))) = join (map (entry_of json_dumps) ms).
Proof.
  intros Hacc Hwf Hs Hm out.
  destruct (process_all_accepted json_dumps w sk ms Hacc Hwf h Hs)
    as (b & _ & H2 & H3 & H4).
  destruct (_send_accepted w (snd (process_all json_dumps w ms h)) sk Hacc H2)
    as (F1 & _ & F3 & F4).
  split; [exact F1|]. split; [exact F3|].
  destruct (sent_trans _ _ _ _ _ H3 F4) as (evs & Hh & Hb).
  unfold out, flush. rewrite (since_app h _ evs Hh), Hb.
  rewrite join_app. simpl. rewrite append_empty_r, H4, Hm. reflexivity.
Qed.

(** X20 on ten metrics in batches of three. *)
Lemma flush_delivers_the_rest_witness :
  join (sendalls (since batching_handler
          (snd (flush up (snd (process_all sample_dumps up ten_metrics
                                 batching_handler))))))
  = join (map (entry_of sample_dumps) ten_metrics).
Proof.
  assert (Hacc : accepts up) by (intros hist sk data; reflexivity).
  exact (proj2 (proj2 (flush_delivers_the_rest sample_dumps up ten_metrics
                  batching_handler 0%nat Hacc ten_metrics_well_formed
                  eq_refl eq_refl))).
Defined.
